(** * SPADE generator (gaugan/models/spade_generators/spade_generator.py)

    A shallow embedding of [SPADEResnetBlock] and [SPADEGenerator] and the
    properties their specification states about them.

    Conventions of the embedding:
    - Python [int] is [Z]; [//] on a positive divisor is [Z.div] (floor).
    - Python [float] is an IEEE binary64 value, a [spec_float] of the
      Standard Library with [prec = 53] and [emax = 1024].
    - A raised exception is the [Err] case of [result]; object construction
      threads the list of layers created so far ([M]).
    - A tensor is its shape together with its elements.  An element is a
      real number, an infinity or NaN: finite values are exact reals (the
      rounding and the overflow of float32 arithmetic are outside the
      model), and the infinities and NaN go through the arithmetic as
      IEEE 754 prescribes.  The forward pass is the inference-mode one (no
      buffer is updated by it). *)

From Stdlib Require Import ZArith String Ascii List Bool Lia.
From Stdlib Require Import Reals Lra.
From Stdlib Require Import Floats.SpecFloat.
Import ListNotations.

Open Scope string_scope.
Open Scope list_scope.
Open Scope Z_scope.

(** ** Exceptions and results *)

Inductive exn : Type :=
| ValueError (msg : string)
| ZeroDivisionError (msg : string)
| OverflowError (msg : string)
| RuntimeError (msg : string)
| AttributeError (name : string).

Inductive result (A : Type) : Type :=
| Ok (a : A)
| Err (e : exn).

Arguments Ok {A} a.
Arguments Err {A} e.

Definition rbind {A B : Type} (r : result A) (k : A -> result B) : result B :=
  match r with
  | Ok a => k a
  | Err e => Err e
  end.

Declare Scope result_scope.
Delimit Scope result_scope with result.
Notation "'let?' x ':=' r 'in' k" :=
  (rbind r (fun x => k))
  (at level 10, x pattern, r at level 100, k at level 200)
  : result_scope.
Open Scope result_scope.

Definition is_ok {A : Type} (r : result A) : bool :=
  match r with Ok _ => true | Err _ => false end.

(** ** Python strings: [in] and [str.replace] *)

(** [needle in hay]. *)
Fixpoint contains (needle hay : string) : bool :=
  if String.prefix needle hay then true
  else match hay with
       | EmptyString => false
       | String _ rest => contains needle rest
       end.

(** [hay.replace(old, new)] for a non-empty [old]: the occurrences are found
    left to right and do not overlap.  [skip] counts the characters of the
    current occurrence that are still to be dropped. *)
Fixpoint replace_from (skip : nat) (old new hay : string) : string :=
  match skip with
  | S k =>
      match hay with
      | EmptyString => EmptyString
      | String _ rest => replace_from k old new rest
      end
  | O =>
      match hay with
      | EmptyString => EmptyString
      | String c rest =>
          if String.prefix old hay
          then (new ++ replace_from (String.length old - 1) old new rest)%string
          else String c (replace_from O old new rest)
      end
  end.

Definition replace (old new hay : string) : string :=
  replace_from O old new hay.

(** ** Python floats *)

Definition prec64 : Z := 53.
Definition emax64 : Z := 1024.

(** [float(n)] for an [int]: correctly rounded, and an [OverflowError] when
    [n] is beyond the range of binary64. *)
Definition float_of_int (n : Z) : result spec_float :=
  match binary_normalize prec64 emax64 n 0 false with
  | S754_infinity _ => Err (OverflowError "int too large to convert to float")
  | f => Ok f
  end.

(** [n / d] for an [int] [n] and a [float] [d]. *)
Definition truediv (n : Z) (d : spec_float) : result spec_float :=
  let? x := float_of_int n in
  match d with
  | S754_zero _ => Err (ZeroDivisionError "float division by zero")
  | _ => Ok (SFdiv prec64 emax64 x d)
  end.

(** [m / 2^k] rounded to the nearest integer, ties to even. *)
Definition round_half_even_shift (m k : Z) : Z :=
  let q := m / 2 ^ k in
  let r := m mod 2 ^ k in
  match 2 * r ?= 2 ^ k with
  | Lt => q
  | Gt => q + 1
  | Eq => if Z.even q then q else q + 1
  end.

(** [round(x)] with one argument: an [int], ties to even. *)
Definition round (x : spec_float) : result Z :=
  match x with
  | S754_zero _ => Ok 0
  | S754_nan => Err (ValueError "cannot convert float NaN to integer")
  | S754_infinity _ =>
      Err (OverflowError "cannot convert float infinity to integer")
  | S754_finite s m e =>
      let a := if 0 <=? e then Z.pos m * 2 ^ e
               else round_half_even_shift (Z.pos m) (- e) in
      Ok (if s then - a else a)
  end.

(** The floats [1.0] and [4.0]. *)
Definition float_one : spec_float := S754_finite false 4503599627370496 (-52).
Definition float_four : spec_float := S754_finite false 4503599627370496 (-50).

(** ** Stateful, failing computations

    [ST S A] is a computation over a mutable state [S] that returns an [A] or
    raises; the state at the time of the raise is kept, as it is for a Python
    object mutated in place. *)

Definition ST (S A : Type) : Type := S -> result A * S.

Definition ret {S A : Type} (a : A) : ST S A := fun s => (Ok a, s).

Definition raise {S A : Type} (e : exn) : ST S A := fun s => (Err e, s).

Definition bind {S A B : Type} (m : ST S A) (k : A -> ST S B) : ST S B :=
  fun s =>
    match m s with
    | (Ok a, s') => k a s'
    | (Err e, s') => (Err e, s')
    end.

Definition lift {S A : Type} (r : result A) : ST S A := fun s => (r, s).

(** Runs a computation on a component of the state, [get] and [set] being the
    attribute read and the attribute assignment. *)
Definition on_field {S T A : Type} (get : S -> T) (set : T -> S -> S)
    (m : ST T A) : ST S A :=
  fun s => let '(r, t') := m (get s) in (r, set t' s).

Declare Scope st_scope.
Delimit Scope st_scope with st.
Notation "x <- m ;; k" := (bind m (fun x => k))
  (at level 61, m at next level, right associativity) : st_scope.
Notation "m ;;; k" := (bind m (fun _ => k))
  (at level 61, right associativity) : st_scope.

(** ** Tensor elements

    An element is a real number, an infinity or NaN.  Finite values are
    exact reals (the rounding and the overflow of float32 arithmetic are
    outside the model); the infinities and NaN behave as IEEE 754
    prescribes: an operation with a NaN operand gives NaN, and so do
    [inf - inf] and [0 * inf]. *)

Inductive Scalar : Type :=
| Real (r : R)
| PosInf
| NegInf
| NaN.

(** [a + b] *)
Definition scalar_add (a b : Scalar) : Scalar :=
  match a, b with
  | Real x, Real y => Real (x + y)
  | NaN, _ | _, NaN => NaN
  | PosInf, NegInf | NegInf, PosInf => NaN
  | PosInf, _ | _, PosInf => PosInf
  | NegInf, _ | _, NegInf => NegInf
  end.

(** [- a] *)
Definition scalar_opp (a : Scalar) : Scalar :=
  match a with
  | Real x => Real (- x)
  | PosInf => NegInf
  | NegInf => PosInf
  | NaN => NaN
  end.

(** [w * a] for a parameter [w], which is a real number. *)
Definition scalar_scale (w : R) (a : Scalar) : Scalar :=
  match a with
  | Real x => Real (w * x)
  | NaN => NaN
  | _ =>
      if Rlt_dec 0 w then a
      else if Rlt_dec w 0 then scalar_opp a
      else NaN
  end.

(** [tanh a]: the limits at the infinities are [1] and [-1]. *)
Definition scalar_tanh (a : Scalar) : Scalar :=
  match a with
  | Real x => Real (tanh x)
  | PosInf => Real 1
  | NegInf => Real (-1)
  | NaN => NaN
  end.

(** [a > 0 ? a : a * negative_slope], the element-wise leaky-relu (for a
    real [a] the two branches agree at [0]). *)
Definition scalar_leaky_relu (negative_slope : R) (a : Scalar) : Scalar :=
  match a with
  | Real v => Real (if Rle_dec 0 v then v else (negative_slope * v)%R)
  | PosInf => PosInf
  | _ => scalar_scale negative_slope a
  end.

(** [a] is a number of [[lo, hi]]; neither NaN nor an infinity is. *)
Definition within (lo hi : R) (a : Scalar) : Prop :=
  match a with
  | Real x => (lo <= x <= hi)%R
  | _ => False
  end.

(** ** Tensors

    The tensors of this program are all four-dimensional, laid out as
    [batch, channel, height, width]. *)

Record Tensor : Type := mkTensor {
  batch : Z;
  channels : Z;
  height : Z;
  width : Z;
  data : Z -> Z -> Z -> Z -> Scalar
}.

(** [x.shape] *)
Definition shape (x : Tensor) : list Z :=
  [batch x; channels x; height x; width x].

(** Every element of [x] lies in [[lo, hi]]. *)
Definition values_within (lo hi : R) (x : Tensor) : Prop :=
  forall b c i j,
    0 <= b < batch x -> 0 <= c < channels x ->
    0 <= i < height x -> 0 <= j < width x ->
    within lo hi (data x b c i j).

(** The sum of [f 0 .. f (n-1)]. *)
Definition sumZ (n : Z) (f : Z -> R) : R :=
  fold_right (fun k acc => (f (Z.of_nat k) + acc)%R) 0%R (seq 0 (Z.to_nat n)).

(** The same sum over elements. *)
Definition sum_scalars (n : Z) (f : Z -> Scalar) : Scalar :=
  fold_right (fun k acc => scalar_add (f (Z.of_nat k)) acc) (Real 0)
    (seq 0 (Z.to_nat n)).

(** *** Elementwise operations of torch *)

(** [F.leaky_relu(x, negative_slope)] *)
Definition F_leaky_relu (x : Tensor) (negative_slope : R) : Tensor :=
  mkTensor (batch x) (channels x) (height x) (width x)
    (fun b c i j => scalar_leaky_relu negative_slope (data x b c i j)).

(** [torch.tanh(x)] *)
Definition torch_tanh (x : Tensor) : Tensor :=
  mkTensor (batch x) (channels x) (height x) (width x)
    (fun b c i j => scalar_tanh (data x b c i j)).

Definition same_shape (x y : Tensor) : bool :=
  (batch x =? batch y) && (channels x =? channels y)
  && (height x =? height y) && (width x =? width y).

(** [x + y] for tensors of one shape.  (Broadcasting between different
    shapes is left out: both summands of a residual block have the shape of
    the block's output.) *)
Definition tensor_add (x y : Tensor) : result Tensor :=
  if same_shape x y
  then Ok (mkTensor (batch x) (channels x) (height x) (width x)
             (fun b c i j => scalar_add (data x b c i j) (data y b c i j)))
  else Err (RuntimeError "The size of tensor a must match the size of tensor b").

(** *** Resampling *)

(** The checks of torch's nearest-neighbour kernels: first the spatial
    sizes of the input and of the output, then that the input has
    elements (an empty batch is let through, an input without channels is
    not). *)
Definition resample_ok (x : Tensor) (out_h out_w : Z) : bool :=
  (0 <? height x) && (0 <? width x) && (0 <? out_h) && (0 <? out_w).

Definition resample (x : Tensor) (out_h out_w : Z) (src_i src_j : Z -> Z)
  : result Tensor :=
  if resample_ok x out_h out_w then
    if 0 <? channels x then
      Ok (mkTensor (batch x) (channels x) out_h out_w
            (fun b c i j => data x b c (src_i i) (src_j j)))
    else Err (RuntimeError "Non-empty 4D data tensor expected")
  else Err (RuntimeError "Input and output sizes should be greater than 0").

(** The source index of nearest-neighbour resampling is computed in
    binary32: [min(floorf(dst * scale), in - 1)] with
    [scale = float(in) / out], except for the sizes at which the kernel
    takes a shortcut ([out = in] and [out = 2 * in]). *)
Definition prec32 : Z := 24.
Definition emax32 : Z := 128.

Definition float32_of_int (n : Z) : spec_float :=
  binary_normalize prec32 emax32 n 0 false.

(** [floorf(x)] as an integer, for a finite [x]. *)
Definition floorf (x : spec_float) : Z :=
  match x with
  | S754_finite s m e =>
      if 0 <=? e then (if s then - (Z.pos m * 2 ^ e) else Z.pos m * 2 ^ e)
      else if s then - ((Z.pos m + 2 ^ (- e) - 1) / 2 ^ (- e))
      else Z.pos m / 2 ^ (- e)
  | _ => 0
  end.

Definition nearest_idx (output_index input_size output_size : Z) : Z :=
  if output_size =? input_size then output_index
  else if output_size =? 2 * input_size then Z.shiftr output_index 1
  else
    let scale :=
      SFdiv prec32 emax32 (float32_of_int input_size)
        (float32_of_int output_size) in
    Z.min
      (floorf (SFmul prec32 emax32 (float32_of_int output_index) scale))
      (input_size - 1).

(** [F.interpolate(x, size=(out_h, out_w))], mode ['nearest'] (the
    default). *)
Definition F_interpolate (x : Tensor) (out_h out_w : Z) : result Tensor :=
  resample x out_h out_w
    (fun i => nearest_idx i (height x) out_h)
    (fun j => nearest_idx j (width x) out_w).

(** [nn.Upsample(scale_factor=...)], mode ['nearest'] (the default). *)
Record Upsample : Type := mkUpsample { scale_factor : Z }.

Definition Upsample_forward (self : Upsample) (x : Tensor) : result Tensor :=
  let out_h := height x * scale_factor self in
  let out_w := width x * scale_factor self in
  resample x out_h out_w
    (fun i => i / scale_factor self) (fun j => j / scale_factor self).

(** *** Convolutions and spectral normalisation *)

Definition Kernel : Type := Z -> Z -> Z -> Z -> R.
Definition Vector : Type := Z -> R.

(** The state of a convolution's [weight]: a plain parameter, or, under
    [spectral_norm], the parameter [weight_orig] with the buffers [u] and
    [v] of the power iteration. *)
Inductive Weight : Type :=
| Plain (w : Kernel)
| SpectralNormalized (weight_orig : Kernel) (u v : Vector).

Record Conv2d : Type := mkConv2d {
  conv_id : nat;
  in_channels : Z;
  out_channels : Z;
  kernel_size : Z;
  padding : Z;
  weight : Weight;
  bias : option Vector
}.

Definition is_spectral (c : Conv2d) : bool :=
  match weight c with
  | Plain _ => false
  | SpectralNormalized _ _ _ => true
  end.

(** [sigma = u^T W v], [W] being the weight reshaped to a matrix with one
    row per output channel. *)
Definition sigma (c : Conv2d) (w : Kernel) (u v : Vector) : R :=
  sumZ (out_channels c) (fun o =>
  sumZ (in_channels c) (fun ci =>
  sumZ (kernel_size c) (fun di =>
  sumZ (kernel_size c) (fun dj =>
    (u o * w o ci di dj
     * v ((ci * kernel_size c + di) * kernel_size c + dj)%Z)%R)))).

(** [SpectralNorm.compute_weight] without power iteration: [weight_orig /
    sigma]. *)
Definition compute_weight (c : Conv2d) (w : Kernel) (u v : Vector) : Kernel :=
  fun o ci di dj => (w o ci di dj / sigma c w u v)%R.

(** The weight a forward pass convolves with. *)
Definition realized_weight (c : Conv2d) : Kernel :=
  match weight c with
  | Plain w => w
  | SpectralNormalized w u v => compute_weight c w u v
  end.

(** The input read with zero padding. *)
Definition padded (x : Tensor) (b c i j : Z) : Scalar :=
  if (0 <=? i) && (i <? height x) && (0 <=? j) && (j <? width x)
  then data x b c i j else Real 0.

(** [Conv2d.forward] with stride 1: the three checks are those of torch's
    shape check, in its order. *)
Definition Conv2d_forward (self : Conv2d) (x : Tensor) : result Tensor :=
  let k := kernel_size self in
  let p := padding self in
  if out_channels self <? 1 then
    Err (RuntimeError "expected weight to be at least 1 at dimension 0")
  else if negb (channels x =? in_channels self) then
    Err (RuntimeError "expected input to have as many channels as the weight")
  else if (height x + 2 * p <? k) || (width x + 2 * p <? k) then
    Err (RuntimeError "Kernel size can't be greater than actual input size")
  else
    let w := realized_weight self in
    Ok (mkTensor (batch x) (out_channels self)
          (height x + 2 * p - k + 1) (width x + 2 * p - k + 1)
          (fun b o i j =>
             scalar_add
               (Real (match bias self with Some bv => bv o | None => 0%R end))
               (sum_scalars (in_channels self) (fun ci =>
                sum_scalars k (fun di =>
                sum_scalars k (fun dj =>
                  scalar_scale (w o ci di dj)
                    (padded x b ci (i + di - p) (j + dj - p)))))))).

(** [torch.nn.utils.remove_spectral_norm(module)]: the weight computed from
    the current [weight_orig], [u] and [v] becomes the plain parameter; a
    module without the hook is refused. *)
Definition remove_spectral_norm (c : Conv2d) : result Conv2d :=
  match weight c with
  | SpectralNormalized w u v =>
      Ok (mkConv2d (conv_id c) (in_channels c) (out_channels c)
            (kernel_size c) (padding c) (Plain (compute_weight c w u v))
            (bias c))
  | Plain _ => Err (ValueError "spectral_norm of 'weight' not found in module")
  end.

(** ** Layer construction

    Construction threads the list of what has been created so far; a layer
    is identified by its position in that list. *)

Inductive Created : Type :=
| NewConv2d (in_ch out_ch ksize pad : Z) (with_bias : bool)
| NewSPADE (config_text : string) (norm_nc label_nc nhidden : Z)
| NewUpsample (scale : Z)
| SpectralNormHook (target : nat).

Definition Log : Type := list Created.

(** Modelled from the spec: the Conditional Normalizer, class [SPADE] of
    [gaugan/models/normalization.py], of which only the import is in the
    source.  An instance keeps the arguments it was constructed with. *)
Record SPADE : Type := mkSPADE {
  spade_id : nat;
  spade_config : string;
  norm_nc : Z;
  label_nc : Z;
  spade_nhidden : Z
}.

(** What the program takes from its environment: the values torch's
    initialisers draw for the parameters and buffers of the [n]-th created
    layer, and the two operations of the Conditional Normalizer that the
    spec leaves open (which descriptors its mode parsing recognises, and the
    tensor its forward operation computes). *)
Class Environment : Type := {
  initial_weight : nat -> Kernel;
  initial_bias : nat -> Vector;
  initial_u : nat -> Vector;
  initial_v : nat -> Vector;
  SPADE_recognizes : string -> bool;
  SPADE_forward : SPADE -> Tensor -> Tensor -> result Tensor
}.

(** Modelled from the spec: the guarantee of the Conditional Normalizer's
    forward operation (spec 4.1), for a feature tensor [x] with the
    normalizer's channel count and a semantic map [seg] of the same batch
    with the configured label channels: the output has the shape of [x]. *)
Definition SPADE_guarantee (E : Environment) : Prop :=
  forall (n : SPADE) (x seg : Tensor),
    channels x = norm_nc n -> channels seg = label_nc n ->
    batch seg = batch x ->
    0 < batch x -> 0 < channels x -> 0 < height x -> 0 < width x ->
    0 < channels seg -> 0 < height seg -> 0 < width seg ->
    exists y, SPADE_forward n x seg = Ok y /\ shape y = shape x.

(** The same guarantee for the batches of [b] samples, which for [b = 0]
    is a statement about the empty batch. *)
Definition SPADE_guarantee_at (E : Environment) (b : Z) : Prop :=
  forall (n : SPADE) (x seg : Tensor),
    batch x = b -> batch seg = b ->
    channels x = norm_nc n -> channels seg = label_nc n ->
    0 < channels x -> 0 < height x -> 0 < width x ->
    0 < channels seg -> 0 < height seg -> 0 < width seg ->
    exists y, SPADE_forward n x seg = Ok y /\ shape y = shape x.

Section Construction.
Context {E : Environment}.

(** [nn.Conv2d(in_channels, out_channels, kernel_size, padding=...,
    bias=...)]: allocating a tensor with a negative dimension fails. *)
Definition Conv2d_init (in_ch out_ch ksize pad : Z) (with_bias : bool)
  : ST Log Conv2d :=
  fun log =>
    if (in_ch <? 0) || (out_ch <? 0) then
      (Err (RuntimeError "Trying to create tensor with negative dimension"),
       log)
    else
      let id := length log in
      (Ok (mkConv2d id in_ch out_ch ksize pad (Plain (initial_weight id))
             (if with_bias then Some (initial_bias id) else None)),
       log ++ [NewConv2d in_ch out_ch ksize pad with_bias]).

(** [torch.nn.utils.spectral_norm(module)]: a second hook on one module is
    refused, and so is a weight without rows (it cannot be reshaped to a
    matrix). *)
Definition spectral_norm (c : Conv2d) : ST Log Conv2d :=
  fun log =>
    match weight c with
    | SpectralNormalized _ _ _ =>
        (Err (RuntimeError "Cannot register two spectral_norm hooks on the same parameter weight"),
         log)
    | Plain w =>
        if out_channels c =? 0 then
          (Err (RuntimeError "cannot reshape tensor of 0 elements into shape [0, -1]"),
           log)
        else
          (Ok (mkConv2d (conv_id c) (in_channels c) (out_channels c)
                 (kernel_size c) (padding c)
                 (SpectralNormalized w (initial_u (conv_id c))
                    (initial_v (conv_id c)))
                 (bias c)),
           log ++ [SpectralNormHook (conv_id c)])
    end.

(** Modelled from the spec: the constructor of the Conditional Normalizer
    fails (an [InvalidConfiguration], here a [ValueError]) when the
    descriptor matches no base normalizer. *)
Definition SPADE_init (config_text : string) (norm_nc label_nc nhidden : Z)
  : ST Log SPADE :=
  fun log =>
    if SPADE_recognizes config_text then
      (Ok (mkSPADE (length log) config_text norm_nc label_nc nhidden),
       log ++ [NewSPADE config_text norm_nc label_nc nhidden])
    else
      (Err (ValueError ("normalization layer " ++ config_text
                          ++ " is not recognized")%string),
       log).

(** [nn.Upsample(scale_factor=...)] *)
Definition Upsample_init (scale : Z) : ST Log Upsample :=
  fun log => (Ok (mkUpsample scale), log ++ [NewUpsample scale]).

End Construction.

(** ** The configuration object [opt] *)

Record Opt : Type := mkOpt {
  ngf : Z;
  norm_G : string;
  semantic_nc : Z;
  num_upsampling_layers : string;
  crop_size : Z;
  aspect_ratio : spec_float
}.

(** An assignment [self.attr = f(self.attr)] whose right-hand side may
    raise: the state changes only when it returns. *)
Definition assign {S : Type} (f : S -> result S) : ST S unit :=
  fun s =>
    match f s with
    | Ok s' => (Ok tt, s')
    | Err e => (Err e, s)
    end.

(** Reading an attribute that was never assigned. *)
Definition attribute {A : Type} (name : string) (a : option A) : result A :=
  match a with
  | Some v => Ok v
  | None => Err (AttributeError name)
  end.

(** ** class SPADEResnetBlock *)

Module SPADEResnetBlock.

Record t : Type := mk {
  fin : Z;
  fout : Z;
  opt : Opt;
  learned_shortcut : bool;
  conv_0 : Conv2d;
  conv_1 : Conv2d;
  conv_s : option Conv2d;
  norm_0 : SPADE;
  norm_1 : SPADE;
  norm_s : option SPADE
}.

Definition set_conv_0 (c : Conv2d) (self : t) : t :=
  mk (fin self) (fout self) (opt self) (learned_shortcut self)
     c (conv_1 self) (conv_s self)
     (norm_0 self) (norm_1 self) (norm_s self).

Definition set_conv_1 (c : Conv2d) (self : t) : t :=
  mk (fin self) (fout self) (opt self) (learned_shortcut self)
     (conv_0 self) c (conv_s self)
     (norm_0 self) (norm_1 self) (norm_s self).

Definition set_conv_s (c : Conv2d) (self : t) : t :=
  mk (fin self) (fout self) (opt self) (learned_shortcut self)
     (conv_0 self) (conv_1 self) (Some c)
     (norm_0 self) (norm_1 self) (norm_s self).

(** The convolutions and the normalizers the block owns. *)
Definition convs (self : t) : list Conv2d :=
  conv_0 self :: conv_1 self
  :: match conv_s self with Some c => [c] | None => [] end.

Definition norms (self : t) : list SPADE :=
  norm_0 self :: norm_1 self
  :: match norm_s self with Some n => [n] | None => [] end.

Section Methods.
Context {E : Environment}.

Local Open Scope st_scope.

(** [__init__(self, fin, fout, opt)] *)
Definition init (fin fout : Z) (opt : Opt) : ST Log t :=
  let learned_shortcut := negb (fin =? fout) in
  let fmiddle := Z.min fin fout in
  conv_0 <- Conv2d_init fin fmiddle 3 1 true ;;
  conv_1 <- Conv2d_init fmiddle fout 3 1 true ;;
  conv_s <- (if learned_shortcut
             then c <- Conv2d_init fin fout 1 0 false ;; ret (Some c)
             else ret None) ;;
  wrapped <-
    (if contains "spectral" (norm_G opt) then
       conv_0 <- spectral_norm conv_0 ;;
       conv_1 <- spectral_norm conv_1 ;;
       conv_s <- (if learned_shortcut
                  then c <- lift (attribute "conv_s" conv_s) ;;
                       c <- spectral_norm c ;; ret (Some c)
                  else ret conv_s) ;;
       ret (conv_0, conv_1, conv_s)
     else ret (conv_0, conv_1, conv_s)) ;;
  let '(conv_0, conv_1, conv_s) := wrapped in
  let spade_config_str := replace "spectral" "" (norm_G opt) in
  norm_0 <- SPADE_init spade_config_str fin (semantic_nc opt)
              (ngf opt * 2) ;;
  norm_1 <- SPADE_init spade_config_str fmiddle (semantic_nc opt)
              (ngf opt * 2) ;;
  norm_s <- (if learned_shortcut
             then n <- SPADE_init spade_config_str fin (semantic_nc opt)
                         (ngf opt * 2) ;;
                  ret (Some n)
             else ret None) ;;
  ret (mk fin fout opt learned_shortcut
          conv_0 conv_1 conv_s norm_0 norm_1 norm_s).

(** [shortcut(self, x, seg)] *)
Definition shortcut (self : t) (x seg : Tensor) : result Tensor :=
  if learned_shortcut self then
    let? conv_s := attribute "conv_s" (conv_s self) in
    let? norm_s := attribute "norm_s" (norm_s self) in
    let? n := SPADE_forward norm_s x seg in
    Conv2d_forward conv_s n
  else Ok x.

(** [actvn(self, x)] *)
Definition actvn (self : t) (x : Tensor) : Tensor :=
  F_leaky_relu x (2 / 10)%R.

(** [forward(self, x, seg)] *)
Definition forward (self : t) (x seg : Tensor) : result Tensor :=
  let? x_s := shortcut self x seg in
  let? n0 := SPADE_forward (norm_0 self) x seg in
  let? dx := Conv2d_forward (conv_0 self) (actvn self n0) in
  let? n1 := SPADE_forward (norm_1 self) dx seg in
  let? dx := Conv2d_forward (conv_1 self) (actvn self n1) in
  tensor_add x_s dx.

(** [remove_spectral_norm(self)] *)
Definition remove_spectral_norm : ST t unit :=
  assign (fun self =>
            let? c := remove_spectral_norm (conv_0 self) in
            Ok (set_conv_0 c self)) ;;;
  assign (fun self =>
            let? c := remove_spectral_norm (conv_1 self) in
            Ok (set_conv_1 c self)) ;;;
  (fun self =>
     if learned_shortcut self then
       assign (fun self =>
                 let? conv_s := attribute "conv_s" (conv_s self) in
                 let? c := remove_spectral_norm conv_s in
                 Ok (set_conv_s c self)) self
     else ret tt self).

End Methods.

End SPADEResnetBlock.

(** ** class SPADEGenerator *)

Module SPADEGenerator.

Record t : Type := mk {
  opt : Opt;
  sw : Z;
  sh : Z;
  fc : Conv2d;
  head_0 : SPADEResnetBlock.t;
  G_middle_0 : SPADEResnetBlock.t;
  G_middle_1 : SPADEResnetBlock.t;
  up_0 : SPADEResnetBlock.t;
  up_1 : SPADEResnetBlock.t;
  up_2 : SPADEResnetBlock.t;
  up_3 : SPADEResnetBlock.t;
  up_4 : option SPADEResnetBlock.t;
  conv_img : Conv2d;
  up : Upsample
}.

Definition set_head_0 (b : SPADEResnetBlock.t) (self : t) : t :=
  mk (opt self) (sw self) (sh self) (fc self) b (G_middle_0 self)
     (G_middle_1 self) (up_0 self) (up_1 self) (up_2 self) (up_3 self)
     (up_4 self) (conv_img self) (up self).

Definition set_G_middle_0 (b : SPADEResnetBlock.t) (self : t) : t :=
  mk (opt self) (sw self) (sh self) (fc self) (head_0 self) b
     (G_middle_1 self) (up_0 self) (up_1 self) (up_2 self) (up_3 self)
     (up_4 self) (conv_img self) (up self).

Definition set_G_middle_1 (b : SPADEResnetBlock.t) (self : t) : t :=
  mk (opt self) (sw self) (sh self) (fc self) (head_0 self)
     (G_middle_0 self) b (up_0 self) (up_1 self) (up_2 self) (up_3 self)
     (up_4 self) (conv_img self) (up self).

Definition set_up_0 (b : SPADEResnetBlock.t) (self : t) : t :=
  mk (opt self) (sw self) (sh self) (fc self) (head_0 self)
     (G_middle_0 self) (G_middle_1 self) b (up_1 self) (up_2 self)
     (up_3 self) (up_4 self) (conv_img self) (up self).

Definition set_up_1 (b : SPADEResnetBlock.t) (self : t) : t :=
  mk (opt self) (sw self) (sh self) (fc self) (head_0 self)
     (G_middle_0 self) (G_middle_1 self) (up_0 self) b (up_2 self)
     (up_3 self) (up_4 self) (conv_img self) (up self).

Definition set_up_2 (b : SPADEResnetBlock.t) (self : t) : t :=
  mk (opt self) (sw self) (sh self) (fc self) (head_0 self)
     (G_middle_0 self) (G_middle_1 self) (up_0 self) (up_1 self) b
     (up_3 self) (up_4 self) (conv_img self) (up self).

Definition set_up_3 (b : SPADEResnetBlock.t) (self : t) : t :=
  mk (opt self) (sw self) (sh self) (fc self) (head_0 self)
     (G_middle_0 self) (G_middle_1 self) (up_0 self) (up_1 self)
     (up_2 self) b (up_4 self) (conv_img self) (up self).

Definition set_up_4 (b : SPADEResnetBlock.t) (self : t) : t :=
  mk (opt self) (sw self) (sh self) (fc self) (head_0 self)
     (G_middle_0 self) (G_middle_1 self) (up_0 self) (up_1 self)
     (up_2 self) (up_3 self) (Some b) (conv_img self) (up self).

(** The residual blocks the generator owns, in construction order. *)
Definition blocks (self : t) : list SPADEResnetBlock.t :=
  [head_0 self; G_middle_0 self; G_middle_1 self;
   up_0 self; up_1 self; up_2 self; up_3 self]
  ++ match up_4 self with Some b => [b] | None => [] end.

(** The [if]/[elif] chain of [compute_latent_vector_size]. *)
Definition num_up_layers (opt : Opt) : result Z :=
  if String.eqb (num_upsampling_layers opt) "normal" then Ok 5
  else if String.eqb (num_upsampling_layers opt) "more" then Ok 6
  else if String.eqb (num_upsampling_layers opt) "most" then Ok 7
  else Err (ValueError ("opt.num_upsampling_layers ["
                          ++ num_upsampling_layers opt
                          ++ "] not recognized")%string).

(** [compute_latent_vector_size(self, opt)]: the pair [(sw, sh)]. *)
Definition compute_latent_vector_size (opt : Opt) : result (Z * Z) :=
  let? num_up_layers := num_up_layers opt in
  let sw := crop_size opt / 2 ^ num_up_layers in
  let? q := truediv sw (aspect_ratio opt) in
  let? sh := round q in
  Ok (sw, sh).

Section Methods.
Context {E : Environment}.

Local Open Scope st_scope.

(** [__init__(self, opt)] *)
Definition init (opt : Opt) : ST Log t :=
  let nf := ngf opt in
  size <- lift (compute_latent_vector_size opt) ;;
  let '(sw, sh) := size in
  fc <- Conv2d_init (semantic_nc opt) (16 * nf) 3 1 true ;;
  head_0 <- SPADEResnetBlock.init (16 * nf) (16 * nf) opt ;;
  G_middle_0 <- SPADEResnetBlock.init (16 * nf) (16 * nf) opt ;;
  G_middle_1 <- SPADEResnetBlock.init (16 * nf) (16 * nf) opt ;;
  up_0 <- SPADEResnetBlock.init (16 * nf) (8 * nf) opt ;;
  up_1 <- SPADEResnetBlock.init (8 * nf) (4 * nf) opt ;;
  up_2 <- SPADEResnetBlock.init (4 * nf) (2 * nf) opt ;;
  up_3 <- SPADEResnetBlock.init (2 * nf) (1 * nf) opt ;;
  last <- (if String.eqb (num_upsampling_layers opt) "most"
           then b <- SPADEResnetBlock.init (1 * nf) (nf / 2) opt ;;
                ret (Some b, nf / 2)
           else ret (None, nf)) ;;
  let '(up_4, final_nc) := last in
  conv_img <- Conv2d_init final_nc 3 3 1 true ;;
  up <- Upsample_init 2 ;;
  ret (mk opt sw sh fc head_0 G_middle_0 G_middle_1
          up_0 up_1 up_2 up_3 up_4 conv_img up).

(** [num_upsampling_layers in ("more", "most")] *)
Definition more_or_most (opt : Opt) : bool :=
  String.eqb (num_upsampling_layers opt) "more"
  || String.eqb (num_upsampling_layers opt) "most".

(** [forward(self, input)] *)
Definition forward (self : t) (input : Tensor) : result Tensor :=
  let opt := opt self in
  let seg := input in
  let? x := F_interpolate seg (sh self) (sw self) in
  let? x := Conv2d_forward (fc self) x in
  let? x := SPADEResnetBlock.forward (head_0 self) x seg in
  let? x := Upsample_forward (up self) x in
  let? x := SPADEResnetBlock.forward (G_middle_0 self) x seg in
  let? x := (if more_or_most opt
             then Upsample_forward (up self) x else Ok x) in
  let? x := SPADEResnetBlock.forward (G_middle_1 self) x seg in
  let? x := Upsample_forward (up self) x in
  let? x := SPADEResnetBlock.forward (up_0 self) x seg in
  let? x := Upsample_forward (up self) x in
  let? x := SPADEResnetBlock.forward (up_1 self) x seg in
  let? x := Upsample_forward (up self) x in
  let? x := SPADEResnetBlock.forward (up_2 self) x seg in
  let? x := Upsample_forward (up self) x in
  let? x := SPADEResnetBlock.forward (up_3 self) x seg in
  let? x := (if String.eqb (num_upsampling_layers opt) "most"
             then let? x := Upsample_forward (up self) x in
                  let? up_4 := attribute "up_4" (up_4 self) in
                  SPADEResnetBlock.forward up_4 x seg
             else Ok x) in
  let? x := Conv2d_forward (conv_img self) (F_leaky_relu x (2 / 10)%R) in
  Ok (torch_tanh x).

(** One line [self.<block>.remove_spectral_norm()]. *)
Definition on_block (get : t -> SPADEResnetBlock.t)
    (set : SPADEResnetBlock.t -> t -> t) : ST t unit :=
  on_field get set SPADEResnetBlock.remove_spectral_norm.

(** [remove_spectral_norm(self)] *)
Definition remove_spectral_norm : ST t unit :=
  on_block head_0 set_head_0 ;;;
  on_block G_middle_0 set_G_middle_0 ;;;
  on_block G_middle_1 set_G_middle_1 ;;;
  on_block up_0 set_up_0 ;;;
  on_block up_1 set_up_1 ;;;
  on_block up_2 set_up_2 ;;;
  on_block up_3 set_up_3 ;;;
  (fun self =>
     if String.eqb (num_upsampling_layers (opt self)) "most" then
       match up_4 self with
       | Some b =>
           let '(r, b') := SPADEResnetBlock.remove_spectral_norm b in
           (r, set_up_4 b' self)
       | None => (Err (AttributeError "up_4"), self)
       end
     else ret tt self).

End Methods.

End SPADEGenerator.

(** ** A reference environment

    Parameters initialised to zero, descriptors recognised by their
    ["spade"] prefix, and a normalizer that checks the channel counts and
    returns its input. *)

Definition reference_SPADE_forward (n : SPADE) (x seg : Tensor)
  : result Tensor :=
  if (channels x =? norm_nc n) && (channels seg =? label_nc n)
  then Ok x
  else Err (RuntimeError "expected input to have as many channels as the weight").

Definition reference_environment : Environment := {|
  initial_weight := fun _ _ _ _ _ => 0%R;
  initial_bias := fun _ _ => 0%R;
  initial_u := fun _ _ => 1%R;
  initial_v := fun _ _ => 1%R;
  SPADE_recognizes := String.prefix "spade";
  SPADE_forward := reference_SPADE_forward
|}.

(** The configuration of the spec's end-to-end example, and variations of
    it. *)
Definition example_opt : Opt :=
  mkOpt 64 "spectralspadeinstance3x3" 35 "normal" 256 float_one.

Definition with_mode (mode : string) (opt : Opt) : Opt :=
  mkOpt (ngf opt) (norm_G opt) (semantic_nc opt) mode (crop_size opt)
        (aspect_ratio opt).

Definition with_ngf (n : Z) (opt : Opt) : Opt :=
  mkOpt n (norm_G opt) (semantic_nc opt) (num_upsampling_layers opt)
        (crop_size opt) (aspect_ratio opt).

Definition with_norm_G (mode : string) (opt : Opt) : Opt :=
  mkOpt (ngf opt) mode (semantic_nc opt) (num_upsampling_layers opt)
        (crop_size opt) (aspect_ratio opt).

Definition with_crop_size (n : Z) (opt : Opt) : Opt :=
  mkOpt (ngf opt) (norm_G opt) (semantic_nc opt) (num_upsampling_layers opt)
        n (aspect_ratio opt).

Definition with_aspect_ratio (a : spec_float) (opt : Opt) : Opt :=
  mkOpt (ngf opt) (norm_G opt) (semantic_nc opt) (num_upsampling_layers opt)
        (crop_size opt) a.

(** A semantic map of the given shape, all zero. *)
Definition zeros (b c h w : Z) : Tensor :=
  mkTensor b c h w (fun _ _ _ _ => Real 0).

(** A semantic map of the given shape, all NaN. *)
Definition nans (b c h w : Z) : Tensor :=
  mkTensor b c h w (fun _ _ _ _ => NaN).

(** ** Vocabulary of the statements *)

(** The modules on which a [spectral_norm] hook was registered. *)
Definition hook_targets (log : Log) : list nat :=
  flat_map (fun ev => match ev with
                      | SpectralNormHook target => [target]
                      | _ => []
                      end) log.

(** The 1x1 convolutions among the created layers. *)
Definition pointwise_convs (log : Log) : Log :=
  filter (fun ev => match ev with
                    | NewConv2d _ _ ksize _ _ => ksize =? 1
                    | _ => false
                    end) log.

(** The creation record of a convolution and of a normalizer. *)
Definition Conv2d_record (c : Conv2d) : Created :=
  NewConv2d (in_channels c) (out_channels c) (kernel_size c) (padding c)
            (match bias c with Some _ => true | None => false end).

Definition SPADE_record (n : SPADE) : Created :=
  NewSPADE (spade_config n) (norm_nc n) (label_nc n) (spade_nhidden n).

(** [c] is a convolution with the given geometry, bias and weight state. *)
Definition conv_is (c : Conv2d) (in_ch out_ch ksize pad : Z)
    (with_bias spectral : bool) : Prop :=
  in_channels c = in_ch /\ out_channels c = out_ch
  /\ kernel_size c = ksize /\ padding c = pad
  /\ (match bias c with Some _ => true | None => false end) = with_bias
  /\ is_spectral c = spectral.

(** [n] is a normalizer constructed with the given arguments. *)
Definition norm_is (n : SPADE) (config_text : string)
    (nc lc nhidden : Z) : Prop :=
  spade_config n = config_text /\ norm_nc n = nc /\ label_nc n = lc
  /\ spade_nhidden n = nhidden.

(** What [SPADEResnetBlock.__init__ fin fout opt] leaves behind when it
    returns [b], having extended the list of created layers from [log] to
    [log']. *)
Definition block_built (fin fout : Z) (opt : Opt) (log log' : Log)
    (b : SPADEResnetBlock.t) : Prop :=
  let fmiddle := Z.min fin fout in
  let sp := contains "spectral" (norm_G opt) in
  let cfg := replace "spectral" "" (norm_G opt) in
  let nh := ngf opt * 2 in
  SPADEResnetBlock.fin b = fin /\ SPADEResnetBlock.fout b = fout
  /\ SPADEResnetBlock.opt b = opt
  /\ SPADEResnetBlock.learned_shortcut b = negb (fin =? fout)
  /\ conv_is (SPADEResnetBlock.conv_0 b) fin fmiddle 3 1 true sp
  /\ conv_is (SPADEResnetBlock.conv_1 b) fmiddle fout 3 1 true sp
  /\ match SPADEResnetBlock.conv_s b with
     | Some cs => fin <> fout /\ conv_is cs fin fout 1 0 false sp
     | None => fin = fout
     end
  /\ norm_is (SPADEResnetBlock.norm_0 b) cfg fin (semantic_nc opt) nh
  /\ norm_is (SPADEResnetBlock.norm_1 b) cfg fmiddle (semantic_nc opt) nh
  /\ match SPADEResnetBlock.norm_s b with
     | Some ns => fin <> fout /\ norm_is ns cfg fin (semantic_nc opt) nh
     | None => fin = fout
     end
  /\ exists created : Log,
      log' = log ++ created
      /\ hook_targets created
         = (if sp then map conv_id (SPADEResnetBlock.convs b) else [])
      /\ pointwise_convs created
         = (if fin =? fout then [] else [NewConv2d fin fout 1 0 false])
      /\ (forall c, In c (SPADEResnetBlock.convs b) ->
            nth_error log' (conv_id c) = Some (Conv2d_record c))
      /\ (forall n, In n (SPADEResnetBlock.norms b) ->
            nth_error log' (spade_id n) = Some (SPADE_record n)).

(** What [SPADEGenerator.__init__ opt] leaves behind when it returns [g]. *)
Definition built_block (fin fout : Z) (opt : Opt) (b : SPADEResnetBlock.t)
  : Prop :=
  exists log log' : Log, block_built fin fout opt log log' b.

Definition generator_built (opt : Opt) (g : SPADEGenerator.t) : Prop :=
  let nf := ngf opt in
  let most := String.eqb (num_upsampling_layers opt) "most" in
  SPADEGenerator.opt g = opt
  /\ SPADEGenerator.compute_latent_vector_size opt
     = Ok (SPADEGenerator.sw g, SPADEGenerator.sh g)
  /\ conv_is (SPADEGenerator.fc g) (semantic_nc opt) (16 * nf) 3 1 true false
  /\ built_block (16 * nf) (16 * nf) opt (SPADEGenerator.head_0 g)
  /\ built_block (16 * nf) (16 * nf) opt (SPADEGenerator.G_middle_0 g)
  /\ built_block (16 * nf) (16 * nf) opt (SPADEGenerator.G_middle_1 g)
  /\ built_block (16 * nf) (8 * nf) opt (SPADEGenerator.up_0 g)
  /\ built_block (8 * nf) (4 * nf) opt (SPADEGenerator.up_1 g)
  /\ built_block (4 * nf) (2 * nf) opt (SPADEGenerator.up_2 g)
  /\ built_block (2 * nf) (1 * nf) opt (SPADEGenerator.up_3 g)
  /\ match SPADEGenerator.up_4 g with
     | Some b => most = true /\ built_block (1 * nf) (nf / 2) opt b
     | None => most = false
     end
  /\ conv_is (SPADEGenerator.conv_img g) (if most then nf / 2 else nf)
       3 3 1 true false
  /\ SPADEGenerator.up g = mkUpsample 2.

(** Every element of [x] is NaN. *)
Definition all_nan (x : Tensor) : Prop :=
  forall b c i j,
    0 <= c < channels x -> 0 <= i < height x -> 0 <= j < width x ->
    data x b c i j = NaN.

(** The normalizer gives NaN for a NaN feature (spec 4.1: its result is
    [normalized(X) * (1 + gamma) + beta]). *)
Definition SPADE_keeps_nan (E : Environment) : Prop :=
  forall (n : SPADE) (x seg y : Tensor),
    SPADE_forward n x seg = Ok y -> all_nan x -> all_nan y.

(** A float that is not below zero. *)
Definition not_negative (x : spec_float) : Prop :=
  match x with
  | S754_finite s _ _ => s = false
  | _ => True
  end.

(** [x] has the shape [[b, c, h, w]], with at least one channel, row and
    column (the batch may be empty). *)
Definition dims (x : Tensor) (b c h w : Z) : Prop :=
  shape x = [b; c; h; w] /\ 0 <= b /\ 0 < c /\ 0 < h /\ 0 < w.

(** ** The algorithms in the words of the spec

    These definitions follow the text of the spec (sections 4.2 and 4.3);
    the theorems compare them with the methods above. *)

(** Leaky-relu with the negative slope fixed at 0.2, on one element: [v]
    when [v >= 0] and [0.2 * v] otherwise, which leaves an infinity or a
    NaN as it is. *)
Definition leaky_relu_02 (v : Scalar) : Scalar :=
  match v with
  | Real r => Real (if Rle_dec 0 r then r else (0.2 * r)%R)
  | other => other
  end.

Section SpecAlgorithms.
Context {E : Environment}.

(** Main path = conv_1(leaky-relu(norm_1(conv_0(leaky-relu(norm_0(X,S))),
    S))). *)
Definition spec_main_path (b : SPADEResnetBlock.t) (X S : Tensor)
  : result Tensor :=
  let leaky_relu := fun t => F_leaky_relu t 0.2%R in
  let? n0 := SPADE_forward (SPADEResnetBlock.norm_0 b) X S in
  let? c0 := Conv2d_forward (SPADEResnetBlock.conv_0 b) (leaky_relu n0) in
  let? n1 := SPADE_forward (SPADEResnetBlock.norm_1 b) c0 S in
  Conv2d_forward (SPADEResnetBlock.conv_1 b) (leaky_relu n1).

(** Output = shortcut + main path. *)
Definition spec_block_forward (b : SPADEResnetBlock.t) (X S : Tensor)
  : result Tensor :=
  let? shortcut := SPADEResnetBlock.shortcut b X S in
  let? main_path := spec_main_path b X S in
  tensor_add shortcut main_path.

(** A stage of the generator's pipeline: a 2x upsampling or a residual
    block conditioned on the semantic map. *)
Inductive Stage : Type :=
| Up
| Block (b : SPADEResnetBlock.t).

Definition run_stage (g : SPADEGenerator.t) (S : Tensor) (st : Stage)
    (x : Tensor) : result Tensor :=
  match st with
  | Up => Upsample_forward (SPADEGenerator.up g) x
  | Block b => SPADEResnetBlock.forward b x S
  end.

Fixpoint run_stages (g : SPADEGenerator.t) (S : Tensor)
    (stages : list Stage) (x : Tensor) : result Tensor :=
  match stages with
  | [] => Ok x
  | st :: rest => let? y := run_stage g S st x in run_stages g S rest y
  end.

(** Steps (2) to (6) of the generator's algorithm, for the mode [mode]. *)
Definition spec_stages (g : SPADEGenerator.t) (mode : string)
  : list Stage :=
  [Block (SPADEGenerator.head_0 g); Up; Block (SPADEGenerator.G_middle_0 g)]
  ++ (if String.eqb mode "more" || String.eqb mode "most"
      then [Up] else [])
  ++ [Block (SPADEGenerator.G_middle_1 g);
      Up; Block (SPADEGenerator.up_0 g); Up; Block (SPADEGenerator.up_1 g);
      Up; Block (SPADEGenerator.up_2 g); Up; Block (SPADEGenerator.up_3 g)]
  ++ (if String.eqb mode "most"
      then match SPADEGenerator.up_4 g with
           | Some b => [Up; Block b]
           | None => []
           end
      else []).

(** Steps (1) to (7). *)
Definition spec_generator_forward (g : SPADEGenerator.t) (S : Tensor)
  : result Tensor :=
  let? base := F_interpolate S (SPADEGenerator.sh g) (SPADEGenerator.sw g) in
  let? x := Conv2d_forward (SPADEGenerator.fc g) base in
  let? x := run_stages g S
              (spec_stages g
                 (num_upsampling_layers (SPADEGenerator.opt g))) x in
  let? img := Conv2d_forward (SPADEGenerator.conv_img g)
                (F_leaky_relu x 0.2%R) in
  Ok (torch_tanh img).

End SpecAlgorithms.

(** The number of upsampling stages in a pipeline. *)
Definition count_up (stages : list Stage) : Z :=
  Z.of_nat (length (filter (fun st => match st with
                                      | Up => true
                                      | Block _ => false
                                      end) stages)).

(** [c'] is [c] up to the state of its weight. *)
Definition same_geometry (c' c : Conv2d) : Prop :=
  conv_id c' = conv_id c /\ in_channels c' = in_channels c
  /\ out_channels c' = out_channels c /\ kernel_size c' = kernel_size c
  /\ padding c' = padding c /\ bias c' = bias c.

(** [b'] is [b] up to the state of the weights of its convolutions. *)
Definition same_block_frame (b' b : SPADEResnetBlock.t) : Prop :=
  SPADEResnetBlock.fin b' = SPADEResnetBlock.fin b
  /\ SPADEResnetBlock.fout b' = SPADEResnetBlock.fout b
  /\ SPADEResnetBlock.opt b' = SPADEResnetBlock.opt b
  /\ SPADEResnetBlock.learned_shortcut b'
     = SPADEResnetBlock.learned_shortcut b
  /\ SPADEResnetBlock.norms b' = SPADEResnetBlock.norms b
  /\ Forall2 same_geometry (SPADEResnetBlock.convs b')
       (SPADEResnetBlock.convs b).

(** The float [2.0]. *)
Definition float_two : spec_float := S754_finite false 4503599627370496 (-51).

(** The expression [round(sw / aspect_ratio)] of
    [compute_latent_vector_size]. *)
Definition round_quotient (sw : Z) (aspect_ratio : spec_float) : result Z :=
  let? q := truediv sw aspect_ratio in round q.

(** Half of [sw], a tie going to the even neighbour. *)
Definition half_to_even (sw : Z) : Z :=
  let q := sw / 2 in
  if Z.even sw then q else if Z.even q then q else q + 1.

(** [check] holds for the [count] integers from [k] on. *)
Fixpoint holds_from (count : nat) (k : Z) (check : Z -> bool) : bool :=
  match count with
  | O => true
  | S count' => check k && holds_from count' (k + 1) check
  end.

(** [check k] holds for every [k] from 0 to [2^13 - 1]. *)
Definition holds_below_2_13 (check : Z -> bool) : bool :=
  holds_from (Z.to_nat 8192) 0 check.

(** * Properties *)

(** ** Inversion of stateful computations *)

Lemma bind_Ok {S A B : Type} (m : ST S A) (k : A -> ST S B) s b s' :
  bind m k s = (Ok b, s') ->
  exists a s1, m s = (Ok a, s1) /\ k a s1 = (Ok b, s').
Proof.
  unfold bind. destruct (m s) as [[a | e] s1]; intros H.
  - exists a, s1. split; [reflexivity | exact H].
  - discriminate H.
Qed.

Lemma ret_Ok {S A : Type} (a b : A) (s s' : S) :
  ret a s = (Ok b, s') -> b = a /\ s' = s.
Proof. unfold ret. intros H. inversion H. split; reflexivity. Qed.

Lemma lift_Ok {S A : Type} (r : result A) (b : A) (s s' : S) :
  lift r s = (Ok b, s') -> r = Ok b /\ s' = s.
Proof. unfold lift. intros H. inversion H. split; reflexivity. Qed.

Lemma assign_Ok {S : Type} (f : S -> result S) (s s' : S) (u : unit) :
  assign f s = (Ok u, s') -> f s = Ok s'.
Proof.
  unfold assign. destruct (f s); intros H; inversion H. reflexivity.
Qed.

(** Splits the hypothesis [H : (x <- m ;; k) s = (Ok _, _)]. *)
Tactic Notation "bind_inv" hyp(H) "as" ident(a) ident(s1) ident(Ha) :=
  apply bind_Ok in H; destruct H as (a & s1 & Ha & H).

(** ** Bounds of the hyperbolic tangent *)

Lemma tanh_bounds (x : R) : (-1 <= tanh x <= 1)%R.
Proof.
  unfold tanh, sinh, cosh.
  pose proof (exp_pos x) as Ha.
  pose proof (exp_pos (- x)) as Hb.
  set (a := exp x) in *. set (b := exp (- x)) in *.
  assert (Hc : (0 < (a + b) / 2)%R) by lra.
  split.
  - apply Rmult_le_reg_r with ((a + b) / 2)%R; [exact Hc|].
    unfold Rdiv at 2. rewrite Rmult_assoc, Rinv_l by lra. lra.
  - apply Rmult_le_reg_r with ((a + b) / 2)%R; [exact Hc|].
    unfold Rdiv at 1. rewrite Rmult_assoc, Rinv_l by lra. lra.
Qed.

Lemma scalar_tanh_within (a : Scalar) :
  a <> NaN -> within (-1) 1 (scalar_tanh a).
Proof.
  destruct a as [r | | |]; simpl; intros H.
  - apply tanh_bounds.
  - lra.
  - lra.
  - congruence.
Qed.

Lemma scalar_tanh_nan (a : Scalar) : scalar_tanh a = NaN <-> a = NaN.
Proof. destruct a; simpl; split; congruence. Qed.

(** ** The upsampling mode and the base size *)

Lemma num_up_layers_cases (opt : Opt) (n : Z) :
  SPADEGenerator.num_up_layers opt = Ok n ->
  (num_upsampling_layers opt = "normal" /\ n = 5)
  \/ (num_upsampling_layers opt = "more" /\ n = 6)
  \/ (num_upsampling_layers opt = "most" /\ n = 7).
Proof.
  unfold SPADEGenerator.num_up_layers.
  destruct (String.eqb_spec (num_upsampling_layers opt) "normal") as [H1 | H1].
  { intros H. inversion H. left. split; [exact H1 | reflexivity]. }
  destruct (String.eqb_spec (num_upsampling_layers opt) "more") as [H2 | H2].
  { intros H. inversion H. right. left. split; [exact H2 | reflexivity]. }
  destruct (String.eqb_spec (num_upsampling_layers opt) "most") as [H3 | H3].
  { intros H. inversion H. right. right. split; [exact H3 | reflexivity]. }
  discriminate.
Qed.

Section Properties.
  Context {E : Environment}.

(** C2. The upsampling mode fixes the number of stages: "normal" gives 5,
    "more" gives 6, "most" gives 7.  For any other value the constructor
    raises the [ValueError] of [compute_latent_vector_size], and it does so
    with the list of created layers unchanged: nothing has been created. *)
Theorem num_upsampling_layers_stages (opt : Opt) :
  (num_upsampling_layers opt = "normal" ->
   SPADEGenerator.num_up_layers opt = Ok 5)
  /\ (num_upsampling_layers opt = "more" ->
      SPADEGenerator.num_up_layers opt = Ok 6)
  /\ (num_upsampling_layers opt = "most" ->
      SPADEGenerator.num_up_layers opt = Ok 7)
  /\ (num_upsampling_layers opt <> "normal" ->
      num_upsampling_layers opt <> "more" ->
      num_upsampling_layers opt <> "most" ->
      forall log : Log,
        SPADEGenerator.init opt log
        = (Err (ValueError ("opt.num_upsampling_layers ["
                              ++ num_upsampling_layers opt
                              ++ "] not recognized")%string),
           log)).
Proof.
  repeat split.
  - intros H. unfold SPADEGenerator.num_up_layers. rewrite H. reflexivity.
  - intros H. unfold SPADEGenerator.num_up_layers. rewrite H. reflexivity.
  - intros H. unfold SPADEGenerator.num_up_layers. rewrite H. reflexivity.
  - intros H1 H2 H3 log.
    apply String.eqb_neq in H1, H2, H3.
    unfold SPADEGenerator.init, bind, lift,
      SPADEGenerator.compute_latent_vector_size,
      SPADEGenerator.num_up_layers.
    rewrite H1, H2, H3. reflexivity.
Qed.

(** C3. With a recognised mode of [n] stages, the base width is the floor
    of [crop_size / 2^n] whatever the remainder is (no check, no error on
    account of it: configurations that differ only in the remainder get the
    same result), and the base height is Python's
    [round(sw / aspect_ratio)]; crop size 256 with 5 stages and aspect ratio
    1.0 gives [(8, 8)]. *)
Theorem latent_vector_size_floor (opt : Opt) (n : Z) :
  SPADEGenerator.num_up_layers opt = Ok n ->
  let sw := crop_size opt / 2 ^ n in
  SPADEGenerator.compute_latent_vector_size opt
  = (let? sh := (let? q := truediv sw (aspect_ratio opt) in round q) in
     Ok (sw, sh))
  /\ sw * 2 ^ n <= crop_size opt < (sw + 1) * 2 ^ n
  /\ (forall r : Z,
        0 <= r < 2 ^ n ->
        SPADEGenerator.compute_latent_vector_size
          (with_crop_size (sw * 2 ^ n + r) opt)
        = SPADEGenerator.compute_latent_vector_size opt)
  /\ (crop_size opt = 256 -> n = 5 -> aspect_ratio opt = float_one ->
      SPADEGenerator.compute_latent_vector_size opt = Ok (8, 8)).
Proof.
  intros Hn sw.
  assert (Hpow : 0 < 2 ^ n).
  { destruct (num_up_layers_cases opt n Hn) as [[_ ->] | [[_ ->] | [_ ->]]];
      reflexivity. }
  assert (Heq : SPADEGenerator.compute_latent_vector_size opt
                = (let? sh := (let? q := truediv sw (aspect_ratio opt) in
                               round q) in Ok (sw, sh))).
  { unfold SPADEGenerator.compute_latent_vector_size. rewrite Hn. simpl.
    fold sw. destruct (truediv sw (aspect_ratio opt)); reflexivity. }
  split; [exact Heq|]. split; [|split].
  - unfold sw. pose proof (Z.mul_div_le (crop_size opt) (2 ^ n) Hpow).
    pose proof (Z.mul_succ_div_gt (crop_size opt) (2 ^ n) Hpow). lia.
  - intros r Hr. rewrite Heq.
    unfold SPADEGenerator.compute_latent_vector_size.
    assert (Hn' : SPADEGenerator.num_up_layers
                    (with_crop_size (sw * 2 ^ n + r) opt) = Ok n)
      by exact Hn.
    rewrite Hn'. simpl.
    replace ((sw * 2 ^ n + r) / 2 ^ n) with sw.
    + destruct (truediv sw (aspect_ratio opt)); reflexivity.
    + rewrite Z.add_comm, Z.div_add by lia.
      rewrite Z.div_small by lia. reflexivity.
  - intros Hc H5 Ha. rewrite Heq. unfold sw. rewrite Hc, H5, Ha.
    vm_compute. reflexivity.
Qed.

(** ** Inversion of the layer constructors *)

Lemma Conv2d_init_Ok in_ch out_ch ksize pad with_bias log c log' :
  Conv2d_init in_ch out_ch ksize pad with_bias log = (Ok c, log') ->
  c = mkConv2d (length log) in_ch out_ch ksize pad
        (Plain (initial_weight (length log)))
        (if with_bias then Some (initial_bias (length log)) else None)
  /\ log' = log ++ [NewConv2d in_ch out_ch ksize pad with_bias]
  /\ 0 <= in_ch /\ 0 <= out_ch.
Proof.
  unfold Conv2d_init.
  destruct (in_ch <? 0) eqn:Hi; [discriminate|].
  destruct (out_ch <? 0) eqn:Ho; [discriminate|].
  simpl. intros H. inversion H.
  apply Z.ltb_ge in Hi, Ho. auto.
Qed.

Lemma spectral_norm_Ok c log c' log' :
  spectral_norm c log = (Ok c', log') ->
  exists w,
    weight c = Plain w /\ out_channels c <> 0
    /\ c' = mkConv2d (conv_id c) (in_channels c) (out_channels c)
              (kernel_size c) (padding c)
              (SpectralNormalized w (initial_u (conv_id c))
                 (initial_v (conv_id c)))
              (bias c)
    /\ log' = log ++ [SpectralNormHook (conv_id c)].
Proof.
  unfold spectral_norm.
  destruct (weight c) as [w | w u v]; [|discriminate].
  destruct (out_channels c =? 0) eqn:Ho; [discriminate|].
  intros H. inversion H. apply Z.eqb_neq in Ho. exists w. auto.
Qed.

Lemma SPADE_init_Ok cfg nc lc nh log n log' :
  SPADE_init cfg nc lc nh log = (Ok n, log') ->
  n = mkSPADE (length log) cfg nc lc nh
  /\ log' = log ++ [NewSPADE cfg nc lc nh]
  /\ SPADE_recognizes cfg = true.
Proof.
  unfold SPADE_init.
  destruct (SPADE_recognizes cfg); [|discriminate].
  intros H. inversion H. auto.
Qed.

Lemma nth_error_app_offset {A : Type} (l1 l2 : list A) (k : nat) :
  nth_error (l1 ++ l2) (length l1 + k) = nth_error l2 k.
Proof.
  rewrite nth_error_app2 by lia.
  replace (length l1 + k - length l1)%nat with k by lia. reflexivity.
Qed.

(** Brings a list of created layers to the form [log ++ [e1; ...; en]] and
    the identifiers to the form [length log + k]. *)
Ltac normalize_log :=
  repeat rewrite <- app_assoc; simpl;
  repeat rewrite length_app; simpl;
  repeat rewrite <- Nat.add_assoc; simpl.

Lemma nth_error_app_first {A : Type} (l1 l2 : list A) :
  nth_error (l1 ++ l2) (length l1) = nth_error l2 0.
Proof.
  pose proof (nth_error_app_offset l1 l2 0) as H.
  rewrite Nat.add_0_r in H. exact H.
Qed.

Ltac solve_nth :=
  first [ rewrite nth_error_app_first; reflexivity
        | rewrite nth_error_app_offset; reflexivity ].

(** Closes [block_built] once the block and the list are explicit. *)
Ltac block_built_case :=
  simpl; unfold conv_is, norm_is; simpl;
  repeat match goal with |- _ /\ _ => split end;
  try reflexivity; try assumption;
  eexists; split; [normalize_log; reflexivity|];
  normalize_log;
  repeat match goal with |- _ /\ _ => split end;
  try reflexivity;
  (let x := fresh "x" in
   let Hx := fresh "Hx" in
   intros x Hx;
   repeat (destruct Hx as [<- | Hx]; [simpl; solve_nth|]);
   destruct Hx).

Lemma block_init_built fin fout opt log b log' :
  SPADEResnetBlock.init fin fout opt log = (Ok b, log') ->
  block_built fin fout opt log log' b.
Proof.
  unfold SPADEResnetBlock.init. intros H.
  bind_inv H as c0 l0 H0. apply Conv2d_init_Ok in H0 as (-> & -> & _ & _).
  bind_inv H as c1 l1 H1. apply Conv2d_init_Ok in H1 as (-> & -> & _ & _).
  bind_inv H as cs l2 Hs.
  bind_inv H as wr l3 Hw. destruct wr as [[c0' c1'] cs'].
  bind_inv H as n0 l4 Hn0. apply SPADE_init_Ok in Hn0 as (-> & -> & _).
  bind_inv H as n1 l5 Hn1. apply SPADE_init_Ok in Hn1 as (-> & -> & _).
  bind_inv H as ns l6 Hns.
  apply ret_Ok in H as (-> & ->).
  unfold block_built.
  destruct (fin =? fout) eqn:Hff; simpl in Hs, Hw, Hns;
    [apply Z.eqb_eq in Hff | apply Z.eqb_neq in Hff].
  - apply ret_Ok in Hs as (-> & ->). apply ret_Ok in Hns as (-> & ->).
    destruct (contains "spectral" (norm_G opt)) eqn:Hsp.
    + bind_inv Hw as a0 m0 Ha0. apply spectral_norm_Ok in Ha0 as (w0 & _ & _ & -> & ->).
      bind_inv Hw as a1 m1 Ha1. apply spectral_norm_Ok in Ha1 as (w1 & _ & _ & -> & ->).
      bind_inv Hw as as' m2 Has. apply ret_Ok in Has as (-> & ->).
      apply ret_Ok in Hw as (Hw & ->). inversion Hw; subst; clear Hw.
      block_built_case.
    + apply ret_Ok in Hw as (Hw & ->). inversion Hw; subst; clear Hw.
      block_built_case.
  - bind_inv Hs as c l Hc. apply Conv2d_init_Ok in Hc as (-> & -> & _ & _).
    apply ret_Ok in Hs as (-> & ->).
    bind_inv Hns as n l Hn. apply SPADE_init_Ok in Hn as (-> & -> & _).
    apply ret_Ok in Hns as (-> & ->).
    destruct (contains "spectral" (norm_G opt)) eqn:Hsp.
    + bind_inv Hw as a0 m0 Ha0. apply spectral_norm_Ok in Ha0 as (w0 & _ & _ & -> & ->).
      bind_inv Hw as a1 m1 Ha1. apply spectral_norm_Ok in Ha1 as (w1 & _ & _ & -> & ->).
      bind_inv Hw as as' m2 Has.
      bind_inv Has as a2 m3 Ha2. apply lift_Ok in Ha2 as (Ha2 & ->).
      simpl in Ha2. inversion Ha2; subst; clear Ha2.
      bind_inv Has as a3 m4 Ha3. apply spectral_norm_Ok in Ha3 as (w2 & _ & _ & -> & ->).
      apply ret_Ok in Has as (-> & ->).
      apply ret_Ok in Hw as (Hw & ->). inversion Hw; subst; clear Hw.
      block_built_case.
    + apply ret_Ok in Hw as (Hw & ->). inversion Hw; subst; clear Hw.
      block_built_case.
Qed.

(** ** When construction succeeds *)

Lemma Conv2d_init_succeeds in_ch out_ch ksize pad with_bias log :
  0 <= in_ch -> 0 <= out_ch ->
  Conv2d_init in_ch out_ch ksize pad with_bias log
  = (Ok (mkConv2d (length log) in_ch out_ch ksize pad
           (Plain (initial_weight (length log)))
           (if with_bias then Some (initial_bias (length log)) else None)),
     log ++ [NewConv2d in_ch out_ch ksize pad with_bias]).
Proof.
  intros Hi Ho. unfold Conv2d_init.
  apply Z.ltb_ge in Hi, Ho. rewrite Hi, Ho. reflexivity.
Qed.

Lemma spectral_norm_succeeds id in_ch out_ch ksize pad w bv log :
  out_ch <> 0 ->
  spectral_norm (mkConv2d id in_ch out_ch ksize pad (Plain w) bv) log
  = (Ok (mkConv2d id in_ch out_ch ksize pad
           (SpectralNormalized w (initial_u id) (initial_v id)) bv),
     log ++ [SpectralNormHook id]).
Proof.
  intros Ho. unfold spectral_norm. simpl.
  apply Z.eqb_neq in Ho. rewrite Ho. reflexivity.
Qed.

Lemma SPADE_init_succeeds cfg nc lc nh log :
  SPADE_recognizes cfg = true ->
  SPADE_init cfg nc lc nh log
  = (Ok (mkSPADE (length log) cfg nc lc nh),
     log ++ [NewSPADE cfg nc lc nh]).
Proof. intros H. unfold SPADE_init. rewrite H. reflexivity. Qed.

(** A block is constructed whenever its channel counts are non-negative and
    its descriptor is recognised; under a spectral mode the channel counts
    must be positive. *)
Lemma block_init_succeeds fin fout opt log :
  0 <= fin -> 0 <= fout ->
  SPADE_recognizes (replace "spectral" "" (norm_G opt)) = true ->
  (contains "spectral" (norm_G opt) = true -> 0 < fin /\ 0 < fout) ->
  exists b log', SPADEResnetBlock.init fin fout opt log = (Ok b, log').
Proof.
  intros Hfin Hfout Hrec Hsp.
  unfold SPADEResnetBlock.init, bind.
  rewrite Conv2d_init_succeeds by lia.
  rewrite Conv2d_init_succeeds by lia.
  destruct (fin =? fout) eqn:Hff; simpl.
  - destruct (contains "spectral" (norm_G opt)) eqn:Hc.
    + destruct Hsp as [Hp1 Hp2]; [reflexivity|].
      rewrite spectral_norm_succeeds by lia.
      rewrite spectral_norm_succeeds by lia.
      simpl. rewrite !SPADE_init_succeeds by exact Hrec.
      simpl. do 2 eexists; reflexivity.
    + simpl. rewrite !SPADE_init_succeeds by exact Hrec. simpl. do 2 eexists; reflexivity.
  - rewrite Conv2d_init_succeeds by lia. simpl.
    destruct (contains "spectral" (norm_G opt)) eqn:Hc.
    + destruct Hsp as [Hp1 Hp2]; [reflexivity|].
      rewrite spectral_norm_succeeds by lia.
      rewrite spectral_norm_succeeds by lia.
      simpl. rewrite spectral_norm_succeeds by lia.
      simpl. rewrite !SPADE_init_succeeds by exact Hrec.
      simpl. do 2 eexists; reflexivity.
    + simpl. rewrite !SPADE_init_succeeds by exact Hrec. simpl. do 2 eexists; reflexivity.
Qed.

Lemma built_block_intro fin fout opt log b log' :
  SPADEResnetBlock.init fin fout opt log = (Ok b, log') ->
  built_block fin fout opt b.
Proof. intros H. exists log, log'. apply block_init_built. exact H. Qed.

Lemma generator_init_built opt log g log' :
  SPADEGenerator.init opt log = (Ok g, log') -> generator_built opt g.
Proof.
  unfold SPADEGenerator.init. intros H.
  bind_inv H as size l0 Hsize. apply lift_Ok in Hsize as (Hsize & ->).
  destruct size as [w h].
  bind_inv H as c l1 Hfc. apply Conv2d_init_Ok in Hfc as (-> & -> & _ & _).
  bind_inv H as b0 l2 H0. apply built_block_intro in H0.
  bind_inv H as b1 l3 H1. apply built_block_intro in H1.
  bind_inv H as b2 l4 H2. apply built_block_intro in H2.
  bind_inv H as b3 l5 H3. apply built_block_intro in H3.
  bind_inv H as b4 l6 H4. apply built_block_intro in H4.
  bind_inv H as b5 l7 H5. apply built_block_intro in H5.
  bind_inv H as b6 l8 H6. apply built_block_intro in H6.
  bind_inv H as last l9 Hlast. destruct last as [u4 final_nc].
  bind_inv H as ci l10 Hci. apply Conv2d_init_Ok in Hci as (-> & -> & _ & _).
  bind_inv H as u l11 Hu. unfold Upsample_init in Hu. inversion Hu; subst.
  apply ret_Ok in H as (-> & ->).
  unfold generator_built. simpl.
  destruct (String.eqb (num_upsampling_layers opt) "most") eqn:Hmost.
  - bind_inv Hlast as b7 l12 H7. apply built_block_intro in H7.
    apply ret_Ok in Hlast as (Hl & ->). inversion Hl; subst.
    unfold conv_is. simpl. repeat split; assumption.
  - apply ret_Ok in Hlast as (Hl & ->). inversion Hl; subst.
    unfold conv_is. simpl. repeat split; assumption.
Qed.

(** The generator is constructed whenever the base size can be computed,
    the channel widths are non-negative and the descriptor is recognised;
    under a spectral mode every block needs a positive output width. *)
Lemma generator_init_succeeds opt log size :
  SPADEGenerator.compute_latent_vector_size opt = Ok size ->
  0 <= semantic_nc opt -> 0 <= ngf opt ->
  SPADE_recognizes (replace "spectral" "" (norm_G opt)) = true ->
  (contains "spectral" (norm_G opt) = true ->
   0 < ngf opt
   /\ (num_upsampling_layers opt = "most" -> 1 < ngf opt)) ->
  exists g log', SPADEGenerator.init opt log = (Ok g, log').
Proof.
  intros Hsize Hsem Hngf Hrec Hsp.
  assert (Hhalf : 0 <= ngf opt / 2) by (apply Z.div_pos; lia).
  assert (Hsp' : num_upsampling_layers opt = "most" ->
                 contains "spectral" (norm_G opt) = true ->
                 0 < ngf opt / 2).
  { intros Hm Hc. destruct (Hsp Hc) as [_ H1]. specialize (H1 Hm).
    apply Z.div_str_pos. lia. }
  unfold SPADEGenerator.init, bind, lift. rewrite Hsize.
  destruct size as [w h].
  rewrite Conv2d_init_succeeds by lia.
  repeat match goal with
    | |- context [SPADEResnetBlock.init ?a ?b ?o ?l] =>
        let Hb := fresh "Hb" in
        destruct (block_init_succeeds a b o l) as (? & ? & Hb);
        [ lia | lia | exact Hrec | intros Hc; destruct (Hsp Hc); lia
        | rewrite Hb; clear Hb ]
    end.
  destruct (String.eqb_spec (num_upsampling_layers opt) "most") as [Hm | Hm].
  - match goal with
    | |- context [SPADEResnetBlock.init ?a ?b ?o ?l] =>
        let Hb := fresh "Hb" in
        destruct (block_init_succeeds a b o l) as (? & ? & Hb);
        [ lia | lia | exact Hrec
        | intros Hc; destruct (Hsp Hc); specialize (Hsp' Hm Hc); lia
        | rewrite Hb; clear Hb ]
    end.
    unfold ret. rewrite Conv2d_init_succeeds by lia.
    unfold Upsample_init. do 2 eexists; reflexivity.
  - unfold ret. rewrite Conv2d_init_succeeds by lia.
    unfold Upsample_init. do 2 eexists; reflexivity.
Qed.

(** ** Shapes through the tensor operations *)

Lemma dims_fields x b c h w :
  dims x b c h w ->
  batch x = b /\ channels x = c /\ height x = h /\ width x = w.
Proof. unfold dims, shape. intros [H _]. inversion H. auto. Qed.

Lemma dims_intro x b c h w :
  batch x = b -> channels x = c -> height x = h -> width x = w ->
  0 <= b -> 0 < c -> 0 < h -> 0 < w -> dims x b c h w.
Proof. unfold dims, shape. intros -> -> -> ->. auto. Qed.

Lemma dims_cast x b c h w h' w' :
  dims x b c h w -> h = h' -> w = w' -> dims x b c h' w'.
Proof. intros H -> ->. exact H. Qed.

Lemma F_leaky_relu_dims x slope b c h w :
  dims x b c h w -> dims (F_leaky_relu x slope) b c h w.
Proof. intros H. exact H. Qed.

Lemma torch_tanh_shape x : shape (torch_tanh x) = shape x.
Proof. reflexivity. Qed.

Lemma F_interpolate_dims x b c h w out_h out_w :
  dims x b c h w -> 0 < out_h -> 0 < out_w ->
  exists y, F_interpolate x out_h out_w = Ok y /\ dims y b c out_h out_w.
Proof.
  intros Hx Hh Hw. pose proof Hx as (_ & Hb & Hc & Hh' & Hw').
  apply dims_fields in Hx as (Eb & Ec & Eh & Ew).
  unfold F_interpolate, resample, resample_ok. rewrite Ec, Eh, Ew.
  rewrite !(proj2 (Z.ltb_lt _ _)) by lia. simpl.
  eexists. split; [reflexivity|].
  apply dims_intro; simpl; auto.
Qed.

Lemma Upsample_forward_dims u x b c h w :
  u = mkUpsample 2 -> dims x b c h w ->
  exists y, Upsample_forward u x = Ok y /\ dims y b c (h * 2) (w * 2).
Proof.
  intros -> Hx. pose proof Hx as (_ & Hb & Hc & Hh & Hw).
  apply dims_fields in Hx as (Eb & Ec & Eh & Ew).
  unfold Upsample_forward, resample, resample_ok. simpl. rewrite Ec, Eh, Ew.
  rewrite !(proj2 (Z.ltb_lt _ _)) by lia. simpl.
  eexists. split; [reflexivity|].
  apply dims_intro; simpl; auto; lia.
Qed.

(** A convolution whose padding keeps the size ([2 * padding = kernel_size
    - 1]) maps [[b, in, h, w]] to [[b, out, h, w]]. *)
Lemma Conv2d_forward_dims cv in_ch out_ch ksize pad wb sp x b h w :
  conv_is cv in_ch out_ch ksize pad wb sp ->
  2 * pad = ksize - 1 -> 0 < out_ch -> 0 < in_ch ->
  dims x b in_ch h w ->
  exists y, Conv2d_forward cv x = Ok y /\ dims y b out_ch h w.
Proof.
  intros (Ei & Eo & Ek & Ep & _ & _) Hpad Hout Hin Hx.
  pose proof Hx as (_ & Hb & Hc & Hh & Hw).
  apply dims_fields in Hx as (Eb & Ec & Eh & Ew).
  unfold Conv2d_forward. rewrite Ei, Eo, Ek, Ep, Ec, Eh, Ew.
  assert (H1 : (out_ch <? 1) = false) by (apply Z.ltb_ge; lia).
  assert (H2 : (in_ch =? in_ch) = true) by apply Z.eqb_refl.
  assert (H3 : (h + 2 * pad <? ksize) = false) by (apply Z.ltb_ge; lia).
  assert (H4 : (w + 2 * pad <? ksize) = false) by (apply Z.ltb_ge; lia).
  rewrite H1, H2, H3, H4. cbn [negb orb].
  eexists. split; [reflexivity|].
  apply dims_intro; cbn [batch channels height width]; auto; lia.
Qed.

Lemma tensor_add_dims x y b c h w :
  dims x b c h w -> dims y b c h w ->
  exists z, tensor_add x y = Ok z /\ dims z b c h w
            /\ forall p q i j,
                 data z p q i j = scalar_add (data x p q i j) (data y p q i j).
Proof.
  intros Hx Hy. pose proof Hx as (_ & Hb & Hc & Hh & Hw).
  apply dims_fields in Hx as (Eb & Ec & Eh & Ew).
  apply dims_fields in Hy as (Eb' & Ec' & Eh' & Ew').
  unfold tensor_add, same_shape.
  rewrite Eb, Ec, Eh, Ew, Eb', Ec', Eh', Ew', !Z.eqb_refl. simpl.
  eexists. split; [reflexivity|]. split.
  - apply dims_intro; simpl; auto.
  - reflexivity.
Qed.

Lemma SPADE_guarantee_positive b :
  SPADE_guarantee E -> 0 < b -> SPADE_guarantee_at E b.
Proof.
  intros G Hb n x seg Hx Hs Hc Hl. intros.
  apply G; try assumption; lia.
Qed.

Lemma SPADE_forward_dims b (G : SPADE_guarantee_at E b) n cfg nc lc nh x seg
    h w h0 w0 :
  norm_is n cfg nc lc nh ->
  dims x b nc h w -> dims seg b lc h0 w0 ->
  exists y, SPADE_forward n x seg = Ok y /\ dims y b nc h w.
Proof.
  intros (_ & Enc & Elc & _) Hx Hseg.
  pose proof Hx as (Sx & Hb & Hc & Hh & Hw).
  pose proof Hseg as (_ & _ & Hc0 & Hh0 & Hw0).
  apply dims_fields in Hx as (Eb & Ec & Eh & Ew).
  apply dims_fields in Hseg as (Eb0 & Ec0 & Eh0 & Ew0).
  destruct (G n x seg) as (y & Hy & Sy); try lia.
  exists y. split; [exact Hy|].
  unfold dims. rewrite Sy, Sx. auto.
Qed.

(** ** Shapes through a residual block *)

Lemma block_forward_dims b (G : SPADE_guarantee_at E b) fin fout opt blk
    x seg h w h0 w0 :
  built_block fin fout opt blk ->
  0 < fin -> 0 < fout ->
  dims x b fin h w -> dims seg b (semantic_nc opt) h0 w0 ->
  exists y, SPADEResnetBlock.forward blk x seg = Ok y /\ dims y b fout h w.
Proof.
  intros (log & log' & Hb) Hfin Hfout Hx Hseg.
  destruct Hb as (_ & _ & _ & Hls & Hc0 & Hc1 & Hcs & Hn0 & Hn1 & Hns & _).
  assert (Hmid : 0 < Z.min fin fout) by lia.
  assert (Hsc : exists xs, SPADEResnetBlock.shortcut blk x seg = Ok xs
                           /\ dims xs b fout h w).
  { unfold SPADEResnetBlock.shortcut. rewrite Hls.
    destruct (Z.eqb_spec fin fout) as [Heq | Hne]; simpl.
    - exists x. split; [reflexivity|]. rewrite <- Heq. exact Hx.
    - destruct (SPADEResnetBlock.conv_s blk) as [cs|]; [|contradiction].
      destruct (SPADEResnetBlock.norm_s blk) as [ns|]; [|contradiction].
      destruct Hcs as [_ Hcs]. destruct Hns as [_ Hns]. simpl.
      destruct (SPADE_forward_dims b G _ _ _ _ _ _ _ _ _ _ _ Hns Hx Hseg)
        as (n & -> & Hn). simpl.
      apply (Conv2d_forward_dims _ _ _ _ _ _ _ _ _ _ _ Hcs);
        [reflexivity | lia | lia | exact Hn]. }
  destruct Hsc as (xs & Hxs & Hdxs).
  unfold SPADEResnetBlock.forward. rewrite Hxs. simpl.
  destruct (SPADE_forward_dims b G _ _ _ _ _ _ _ _ _ _ _ Hn0 Hx Hseg)
    as (n0 & -> & Hd0). simpl.
  destruct (Conv2d_forward_dims _ _ _ _ _ _ _
              (SPADEResnetBlock.actvn blk n0) b h w Hc0)
    as (d0 & -> & Hdd0); [reflexivity | lia | lia | exact Hd0 |]. simpl.
  destruct (SPADE_forward_dims b G _ _ _ _ _ _ _ _ _ _ _ Hn1 Hdd0 Hseg)
    as (n1 & -> & Hd1). simpl.
  destruct (Conv2d_forward_dims _ _ _ _ _ _ _
              (SPADEResnetBlock.actvn blk n1) b h w Hc1)
    as (d1 & -> & Hdd1); [reflexivity | lia | lia | exact Hd1 |]. simpl.
  destruct (tensor_add_dims xs d1 b fout h w Hdxs Hdd1) as (z & Hz & Hdz & _).
  exists z. split; assumption.
Qed.

(** ** Shapes through the generator *)

(** One step of the forward pass: the outermost call of the goal is
    replaced by its result, of known dimensions. *)
Ltac forward_step G Hseg :=
  cbn [rbind attribute];
  match goal with
  | |- context [rbind (SPADEResnetBlock.forward ?blk ?x ?seg) _] =>
      let y := fresh "x" in
      let Hy := fresh "Hy" in
      let Hd := fresh "Hd" in
      match goal with
      | Hb : built_block ?fin ?fout ?opt blk, Hx : dims x _ _ _ _ |- _ =>
          edestruct (block_forward_dims _ G fin fout opt blk x seg)
            as (y & Hy & Hd);
          [ exact Hb | lia | lia | exact Hx | exact Hseg
          | rewrite Hy; clear Hy ]
      end
  | |- context [rbind (Upsample_forward ?u ?x) _] =>
      let y := fresh "x" in
      let Hy := fresh "Hy" in
      let Hd := fresh "Hd" in
      match goal with
      | Hu : u = mkUpsample 2, Hx : dims x _ _ _ _ |- _ =>
          edestruct (Upsample_forward_dims u x) as (y & Hy & Hd);
          [ exact Hu | exact Hx | rewrite Hy; clear Hy ]
      end
  end.

(** The last step: the image convolution, of which the result is named by
    the goal. *)
Ltac final_step Hci :=
  match goal with
  | |- context [Conv2d_forward ?c (F_leaky_relu ?x _)] =>
      match goal with
      | Hx : dims x _ _ _ _ |- _ =>
          let y := fresh "x" in
          let Hy := fresh "Hy" in
          let Hd := fresh "Hd" in
          edestruct (Conv2d_forward_dims c) as (y & Hy & Hd);
          [ exact Hci | reflexivity | lia | lia
          | apply F_leaky_relu_dims; rewrite ?Z.mul_1_l in Hx; exact Hx
          | exists x, y; split; [exact Hy|];
            rewrite Hy; cbn [rbind]; split; [reflexivity|];
            apply (dims_cast _ _ _ _ _ _ _ Hd); lia ]
      end
  end.

Lemma generator_forward_dims b (G : SPADE_guarantee_at E b) opt g n seg
    h w :
  generator_built opt g ->
  SPADEGenerator.num_up_layers opt = Ok n ->
  0 < SPADEGenerator.sw g -> 0 < SPADEGenerator.sh g ->
  0 < ngf opt -> (num_upsampling_layers opt = "most" -> 1 < ngf opt) ->
  dims seg b (semantic_nc opt) h w ->
  exists feat x,
    Conv2d_forward (SPADEGenerator.conv_img g) (F_leaky_relu feat (2 / 10))
    = Ok x
    /\ SPADEGenerator.forward g seg = Ok (torch_tanh x)
    /\ dims x b 3 (SPADEGenerator.sh g * 2 ^ n) (SPADEGenerator.sw g * 2 ^ n).
Proof.
  intros Hg Hn Hsw Hsh Hngf Hmost Hseg.
  destruct Hg as (Hopt & _ & Hfc & B0 & B1 & B2 & B3 & B4 & B5 & B6
                  & B7 & Hci & Hup).
  unfold SPADEGenerator.forward, SPADEGenerator.more_or_most.
  rewrite Hopt.
  set (u := SPADEGenerator.up g) in *.
  destruct (F_interpolate_dims seg _ _ _ _ _ _ Hseg Hsh Hsw)
    as (x0 & -> & Hd0).
  cbn [rbind].
  edestruct (Conv2d_forward_dims (SPADEGenerator.fc g)) as (x1 & Hy & Hd1);
    [ exact Hfc | reflexivity | lia | destruct Hseg as (_ & _ & ? & _); lia
    | exact Hd0 | rewrite Hy; clear Hy ].
  destruct (num_up_layers_cases opt n Hn) as [[Hm ->] | [[Hm ->] | [Hm ->]]];
    rewrite Hm in *; cbn [String.eqb Ascii.eqb Bool.eqb orb] in *.
  - destruct (SPADEGenerator.up_4 g); [destruct B7; discriminate|].
    repeat forward_step G Hseg. cbn [rbind].
    final_step Hci.
  - destruct (SPADEGenerator.up_4 g); [destruct B7; discriminate|].
    repeat forward_step G Hseg. cbn [rbind].
    final_step Hci.
  - destruct (SPADEGenerator.up_4 g) as [b4|]; [|discriminate].
    destruct B7 as [_ B7]. specialize (Hmost eq_refl).
    assert (Hhalf : 0 < ngf opt / 2) by (apply Z.div_str_pos; lia).
    repeat forward_step G Hseg. cbn [rbind].
    final_step Hci.
Qed.

(** ** The residual block *)

(** C4. A block constructed with channel counts [fin] and [fout] has
    [learned_shortcut = (fin != fout)] and middle width [min(fin, fout)]
    (the output of [conv_0], the input of [conv_1], the width of [norm_1]).
    When [fin = fout] the block has no [conv_s] (and no [norm_s]), no 1x1
    convolution was created, and the shortcut returns its input.  When
    [fin <> fout] the block has a bias-free 1x1 convolution [conv_s] from
    [fin] to [fout] channels, the only 1x1 convolution created, and the
    shortcut is [conv_s] applied to the normalization of the input
    conditioned on the semantic map. *)
Theorem block_shortcut_structure (fin fout : Z) (opt : Opt)
    (log log' : Log) (b : SPADEResnetBlock.t) :
  SPADEResnetBlock.init fin fout opt log = (Ok b, log') ->
  SPADEResnetBlock.learned_shortcut b = negb (fin =? fout)
  /\ out_channels (SPADEResnetBlock.conv_0 b) = Z.min fin fout
  /\ in_channels (SPADEResnetBlock.conv_1 b) = Z.min fin fout
  /\ norm_nc (SPADEResnetBlock.norm_1 b) = Z.min fin fout
  /\ (exists created : Log,
        log' = log ++ created
        /\ pointwise_convs created
           = if fin =? fout then [] else [NewConv2d fin fout 1 0 false])
  /\ (fin = fout ->
      SPADEResnetBlock.conv_s b = None /\ SPADEResnetBlock.norm_s b = None
      /\ forall x seg : Tensor, SPADEResnetBlock.shortcut b x seg = Ok x)
  /\ (fin <> fout ->
      exists (cs : Conv2d) (ns : SPADE),
        SPADEResnetBlock.conv_s b = Some cs
        /\ SPADEResnetBlock.norm_s b = Some ns
        /\ in_channels cs = fin /\ out_channels cs = fout
        /\ kernel_size cs = 1 /\ bias cs = None
        /\ norm_nc ns = fin /\ label_nc ns = semantic_nc opt
        /\ forall x seg : Tensor,
             SPADEResnetBlock.shortcut b x seg
             = (let? n := SPADE_forward ns x seg in Conv2d_forward cs n)).
Proof.
  intros H. apply block_init_built in H.
  destruct H as (_ & _ & _ & Hls & Hc0 & Hc1 & Hcs & _ & Hn1 & Hns & Hlog).
  destruct Hc0 as (_ & Ho0 & _). destruct Hc1 as (Hi1 & _).
  destruct Hn1 as (_ & Hnc1 & _).
  destruct Hlog as (created & Hl & _ & Hpw & _).
  repeat match goal with |- _ /\ _ => split end; try assumption.
  - exists created. split; assumption.
  - intros Heq.
    destruct (SPADEResnetBlock.conv_s b) as [cs|]; [destruct Hcs; contradiction|].
    destruct (SPADEResnetBlock.norm_s b) as [ns|]; [destruct Hns; contradiction|].
    repeat split. intros x seg.
    unfold SPADEResnetBlock.shortcut. rewrite Hls.
    apply Z.eqb_eq in Heq. rewrite Heq. reflexivity.
  - intros Hne.
    destruct (SPADEResnetBlock.conv_s b) as [cs|] eqn:Ecs; [|contradiction].
    destruct (SPADEResnetBlock.norm_s b) as [ns|] eqn:Ens; [|contradiction].
    destruct Hcs as (_ & Hi & Ho & Hk & _ & Hb & _).
    destruct Hns as (_ & _ & Hnc & Hlc & _).
    exists cs, ns.
    repeat match goal with |- _ /\ _ => split end; try assumption;
      try reflexivity.
    + destruct (bias cs); [discriminate | reflexivity].
    + intros x seg. unfold SPADEResnetBlock.shortcut.
      rewrite Hls, Ecs, Ens. apply Z.eqb_neq in Hne. rewrite Hne.
      reflexivity.
Qed.

Lemma slope_02 : (2 / 10 = 0.2)%R.
Proof. lra. Qed.

(** C5. The forward operation of every block, on every input pair, is the
    shortcut plus the main path
    [conv_1(leaky_relu(norm_1(conv_0(leaky_relu(norm_0(X, S))), S)))]: it
    fails exactly when one of them fails, and otherwise every element of
    the output is the sum of theirs.  Both normalizations receive the same
    semantic map [S], and the activation maps an element [v] to [v] when
    [v >= 0] and to [0.2 * v] otherwise (which leaves an infinity or a NaN
    as it is). *)
Theorem block_forward_formula (b : SPADEResnetBlock.t) (X S : Tensor) :
  SPADEResnetBlock.forward b X S = spec_block_forward b X S
  /\ (forall out : Tensor,
        SPADEResnetBlock.forward b X S = Ok out ->
        exists shortcut main_path : Tensor,
          SPADEResnetBlock.shortcut b X S = Ok shortcut
          /\ spec_main_path b X S = Ok main_path
          /\ forall p q i j,
               data out p q i j
               = scalar_add (data shortcut p q i j) (data main_path p q i j))
  /\ (forall (t : Tensor) p q i j,
        data (SPADEResnetBlock.actvn b t) p q i j
        = leaky_relu_02 (data t p q i j)).
Proof.
  assert (Heq : SPADEResnetBlock.forward b X S = spec_block_forward b X S).
  { unfold SPADEResnetBlock.forward, spec_block_forward, spec_main_path,
      SPADEResnetBlock.actvn.
    rewrite slope_02.
    destruct (SPADEResnetBlock.shortcut b X S) as [xs | e]; [|reflexivity].
    cbn [rbind].
    destruct (SPADE_forward (SPADEResnetBlock.norm_0 b) X S) as [n0 | e];
      [|reflexivity].
    cbn [rbind].
    destruct (Conv2d_forward (SPADEResnetBlock.conv_0 b)
                (F_leaky_relu n0 0.2)) as [c0 | e]; [|reflexivity].
    cbn [rbind].
    destruct (SPADE_forward (SPADEResnetBlock.norm_1 b) c0 S) as [n1 | e];
      [|reflexivity].
    cbn [rbind].
    destruct (Conv2d_forward (SPADEResnetBlock.conv_1 b)
                (F_leaky_relu n1 0.2)) as [c1 | e]; reflexivity. }
  split; [exact Heq|]. split.
  - intros out Hout. rewrite Heq in Hout. unfold spec_block_forward in Hout.
    destruct (SPADEResnetBlock.shortcut b X S) as [xs | e]; [|discriminate].
    cbn [rbind] in Hout.
    destruct (spec_main_path b X S) as [mp | e]; [|discriminate].
    cbn [rbind] in Hout.
    exists xs, mp. repeat split.
    unfold tensor_add in Hout.
    destruct (same_shape xs mp); [|discriminate].
    inversion Hout. reflexivity.
  - intros t p q i j. unfold SPADEResnetBlock.actvn, leaky_relu_02. simpl.
    rewrite slope_02.
    destruct (data t p q i j); simpl; try reflexivity.
    destruct (Rlt_dec 0 0.2); [reflexivity | lra].
Qed.

(** C6. In a constructed block, every owned convolution ([conv_0],
    [conv_1], and [conv_s] when the shortcut is learned) is spectrally
    normalised if and only if the mode string [norm_G] contains
    ["spectral"]; the hooks registered during construction are exactly
    those on the owned convolutions (none without the marker).  Every owned
    normalizer is constructed with the mode string from which ["spectral"]
    has been removed by [str.replace], and no hook is registered on a
    normalizer. *)
Theorem block_spectral_marker (fin fout : Z) (opt : Opt)
    (log log' : Log) (b : SPADEResnetBlock.t) :
  SPADEResnetBlock.init fin fout opt log = (Ok b, log') ->
  (forall c, In c (SPADEResnetBlock.convs b) ->
             is_spectral c = true <-> contains "spectral" (norm_G opt) = true)
  /\ length (SPADEResnetBlock.convs b)
     = (if SPADEResnetBlock.learned_shortcut b then 3%nat else 2%nat)
  /\ (forall n, In n (SPADEResnetBlock.norms b) ->
                spade_config n = replace "spectral" "" (norm_G opt))
  /\ length (SPADEResnetBlock.norms b)
     = (if SPADEResnetBlock.learned_shortcut b then 3%nat else 2%nat)
  /\ exists created : Log,
       log' = log ++ created
       /\ hook_targets created
          = (if contains "spectral" (norm_G opt)
             then map conv_id (SPADEResnetBlock.convs b) else [])
       /\ forall n, In n (SPADEResnetBlock.norms b) ->
                    ~ In (spade_id n) (hook_targets created).
Proof.
  intros H. apply block_init_built in H.
  destruct H as (_ & _ & _ & Hls & Hc0 & Hc1 & Hcs & Hn0 & Hn1 & Hns & Hlog).
  destruct Hlog as (created & Hl & Hhooks & _ & Hconvs & Hnorms).
  assert (Hsp : forall c, In c (SPADEResnetBlock.convs b) ->
                          is_spectral c = contains "spectral" (norm_G opt)).
  { intros c Hc. unfold SPADEResnetBlock.convs in Hc.
    destruct Hc as [<- | [<- | Hc]].
    - apply Hc0.
    - apply Hc1.
    - destruct (SPADEResnetBlock.conv_s b) as [cs|]; [|destruct Hc].
      destruct Hc as [<- | []]. apply Hcs. }
  split; [|split; [|split; [|split]]].
  - intros c Hc. rewrite (Hsp c Hc). tauto.
  - unfold SPADEResnetBlock.convs. rewrite Hls.
    destruct (SPADEResnetBlock.conv_s b) as [cs|];
      [destruct Hcs as [Hne _] | ]; simpl.
    + apply Z.eqb_neq in Hne. rewrite Hne. reflexivity.
    + apply Z.eqb_eq in Hcs. rewrite Hcs. reflexivity.
  - intros n Hn. unfold SPADEResnetBlock.norms in Hn.
    destruct Hn as [<- | [<- | Hn]].
    + apply Hn0.
    + apply Hn1.
    + destruct (SPADEResnetBlock.norm_s b) as [ns|]; [|destruct Hn].
      destruct Hn as [<- | []]. apply Hns.
  - unfold SPADEResnetBlock.norms. rewrite Hls.
    destruct (SPADEResnetBlock.norm_s b) as [ns|];
      [destruct Hns as [Hne _] | ]; simpl.
    + apply Z.eqb_neq in Hne. rewrite Hne. reflexivity.
    + apply Z.eqb_eq in Hns. rewrite Hns. reflexivity.
  - exists created. split; [exact Hl|]. split; [exact Hhooks|].
    intros n Hn Hin. rewrite Hhooks in Hin.
    destruct (contains "spectral" (norm_G opt)); [|destruct Hin].
    apply in_map_iff in Hin as (c & Hid & Hc).
    pose proof (Hconvs c Hc) as H1. pose proof (Hnorms n Hn) as H2.
    rewrite Hid, H2 in H1. discriminate H1.
Qed.

(** ** Removing the spectral normalisation *)

Lemma remove_spectral_norm_plain (c : Conv2d) :
  is_spectral c = false ->
  remove_spectral_norm c
  = Err (ValueError "spectral_norm of 'weight' not found in module").
Proof.
  unfold is_spectral, remove_spectral_norm.
  destruct (weight c); [reflexivity | discriminate].
Qed.

(** Removal succeeds on a normalised convolution; the result is plain, has
    the same geometry and bias, and realises the same weight. *)
Lemma remove_spectral_norm_spectral (c : Conv2d) :
  is_spectral c = true ->
  exists c',
    remove_spectral_norm c = Ok c'
    /\ is_spectral c' = false
    /\ conv_id c' = conv_id c
    /\ realized_weight c' = realized_weight c
    /\ forall x, Conv2d_forward c' x = Conv2d_forward c x.
Proof.
  unfold is_spectral, remove_spectral_norm, realized_weight.
  destruct c as [id i o k p wt bv]. simpl.
  destruct wt as [w | w u v]; [discriminate|]. intros _.
  eexists. split; [reflexivity|]. repeat split.
Qed.

(** On a block whose [conv_0] carries no hook the method raises at its
    first statement and leaves the block as it was. *)
Lemma block_remove_raises (b : SPADEResnetBlock.t) :
  is_spectral (SPADEResnetBlock.conv_0 b) = false ->
  SPADEResnetBlock.remove_spectral_norm b
  = (Err (ValueError "spectral_norm of 'weight' not found in module"), b).
Proof.
  intros H. unfold SPADEResnetBlock.remove_spectral_norm, bind, assign.
  rewrite (remove_spectral_norm_plain _ H). reflexivity.
Qed.

(** On a block all of whose convolutions carry the hook the method
    returns; afterwards no convolution carries it, and the block computes
    what it computed before. *)
Lemma block_remove_returns (b : SPADEResnetBlock.t) :
  (forall c, In c (SPADEResnetBlock.convs b) -> is_spectral c = true) ->
  match SPADEResnetBlock.conv_s b with
  | Some _ => SPADEResnetBlock.learned_shortcut b = true
  | None => SPADEResnetBlock.learned_shortcut b = false
  end ->
  exists b',
    SPADEResnetBlock.remove_spectral_norm b = (Ok tt, b')
    /\ (forall c, In c (SPADEResnetBlock.convs b') -> is_spectral c = false)
    /\ map realized_weight (SPADEResnetBlock.convs b')
       = map realized_weight (SPADEResnetBlock.convs b)
    /\ forall x seg,
         SPADEResnetBlock.forward b' x seg = SPADEResnetBlock.forward b x seg.
Proof.
  destruct b as [fin fout opt ls c0 c1 cs n0 n1 ns].
  unfold SPADEResnetBlock.convs. cbn [SPADEResnetBlock.conv_0
    SPADEResnetBlock.conv_1 SPADEResnetBlock.conv_s
    SPADEResnetBlock.learned_shortcut].
  intros Hsp Hcs.
  assert (H0 : is_spectral c0 = true) by (apply Hsp; simpl; auto).
  assert (H1 : is_spectral c1 = true) by (apply Hsp; simpl; auto).
  destruct c0 as [id0 i0 o0 k0 p0 [w0 | w0 u0 v0] bv0]; [discriminate H0|].
  destruct c1 as [id1 i1 o1 k1 p1 [w1 | w1 u1 v1] bv1]; [discriminate H1|].
  destruct cs as [c2|]; subst ls.
  - assert (H2 : is_spectral c2 = true) by (apply Hsp; simpl; auto).
    destruct c2 as [id2 i2 o2 k2 p2 [w2 | w2 u2 v2] bv2]; [discriminate H2|].
    eexists. split; [reflexivity|]. split; [|split].
    + intros c [<- | [<- | [<- | []]]]; reflexivity.
    + reflexivity.
    + intros x seg. reflexivity.
  - eexists. split; [reflexivity|]. split; [|split].
    + intros c [<- | [<- | []]]; reflexivity.
    + reflexivity.
    + intros x seg. reflexivity.
Qed.


Lemma built_block_convs fin fout opt b :
  built_block fin fout opt b ->
  (forall c, In c (SPADEResnetBlock.convs b) ->
             is_spectral c = contains "spectral" (norm_G opt))
  /\ match SPADEResnetBlock.conv_s b with
     | Some _ => SPADEResnetBlock.learned_shortcut b = true
     | None => SPADEResnetBlock.learned_shortcut b = false
     end.
Proof.
  intros (log & log' & H).
  destruct H as (_ & _ & _ & Hls & Hc0 & Hc1 & Hcs & _).
  split.
  - intros c Hc. unfold SPADEResnetBlock.convs in Hc.
    destruct Hc as [<- | [<- | Hc]].
    + apply Hc0.
    + apply Hc1.
    + destruct (SPADEResnetBlock.conv_s b) as [cs|]; [|destruct Hc].
      destruct Hc as [<- | []]. apply Hcs.
  - rewrite Hls. destruct (SPADEResnetBlock.conv_s b) as [cs|].
    + destruct Hcs as [Hne _]. apply Z.eqb_neq in Hne. rewrite Hne.
      reflexivity.
    + apply Z.eqb_eq in Hcs. rewrite Hcs. reflexivity.
Qed.

Lemma built_block_remove_returns fin fout opt b :
  built_block fin fout opt b ->
  contains "spectral" (norm_G opt) = true ->
  exists b',
    SPADEResnetBlock.remove_spectral_norm b = (Ok tt, b')
    /\ (forall c, In c (SPADEResnetBlock.convs b') -> is_spectral c = false)
    /\ map realized_weight (SPADEResnetBlock.convs b')
       = map realized_weight (SPADEResnetBlock.convs b)
    /\ forall x seg,
         SPADEResnetBlock.forward b' x seg = SPADEResnetBlock.forward b x seg.
Proof.
  intros Hb Hsp. apply built_block_convs in Hb as [Hc Hs].
  apply block_remove_returns; [|exact Hs].
  intros c Hin. rewrite (Hc c Hin). exact Hsp.
Qed.

(** C8. [remove_spectral_norm] on a block whose convolutions carry no
    spectral reparameterization is an error, and consistently so: it raises
    torch's [ValueError] at the first convolution and leaves the block
    unchanged, be it because the mode string has no ["spectral"] marker or
    because the method has already been called.  The operation returns only
    on a block whose convolutions carry the reparameterization, which it
    removes from each of them. *)
Theorem block_remove_spectral_norm_guarded (fin fout : Z) (opt : Opt)
    (log log' : Log) (b : SPADEResnetBlock.t) :
  SPADEResnetBlock.init fin fout opt log = (Ok b, log') ->
  let not_found :=
    Err (ValueError "spectral_norm of 'weight' not found in module") in
  (contains "spectral" (norm_G opt) = false ->
   SPADEResnetBlock.remove_spectral_norm b = (not_found, b))
  /\ (contains "spectral" (norm_G opt) = true ->
      exists b',
        SPADEResnetBlock.remove_spectral_norm b = (Ok tt, b')
        /\ (forall c, In c (SPADEResnetBlock.convs b') ->
                      is_spectral c = false)
        /\ SPADEResnetBlock.remove_spectral_norm b' = (not_found, b')).
Proof.
  intros H not_found. apply built_block_intro in H.
  split; intros Hsp.
  - apply block_remove_raises.
    destruct (built_block_convs _ _ _ _ H) as [Hc _].
    rewrite (Hc (SPADEResnetBlock.conv_0 b)); [exact Hsp|].
    left. reflexivity.
  - destruct (built_block_remove_returns _ _ _ _ H Hsp)
      as (b' & Hr & Hplain & _ & _).
    exists b'. split; [exact Hr|]. split; [exact Hplain|].
    apply block_remove_raises. apply Hplain. left. reflexivity.
Qed.

(** Removal on a generator constructed under a spectral mode returns; no
    block keeps a hook, and the forward pass computes what it computed
    before. *)
Lemma generator_remove_returns opt g :
  generator_built opt g ->
  contains "spectral" (norm_G opt) = true ->
  exists g',
    SPADEGenerator.remove_spectral_norm g = (Ok tt, g')
    /\ (forall b c, In b (SPADEGenerator.blocks g') ->
                    In c (SPADEResnetBlock.convs b) -> is_spectral c = false)
    /\ map (fun b => map realized_weight (SPADEResnetBlock.convs b))
           (SPADEGenerator.blocks g')
       = map (fun b => map realized_weight (SPADEResnetBlock.convs b))
             (SPADEGenerator.blocks g)
    /\ forall seg, SPADEGenerator.forward g' seg = SPADEGenerator.forward g seg.
Proof.
  intros Hg Hsp.
  destruct g as [o w h fc b0 b1 b2 b3 b4 b5 b6 u4 ci u].
  destruct Hg as (Hopt & _ & _ & B0 & B1 & B2 & B3 & B4 & B5 & B6 & B7 & _).
  cbn [SPADEGenerator.opt SPADEGenerator.head_0 SPADEGenerator.G_middle_0
       SPADEGenerator.G_middle_1 SPADEGenerator.up_0 SPADEGenerator.up_1
       SPADEGenerator.up_2 SPADEGenerator.up_3 SPADEGenerator.up_4] in *.
  subst o.
  destruct (built_block_remove_returns _ _ _ _ B0 Hsp) as (b0' & R0 & P0 & I0 & F0).
  destruct (built_block_remove_returns _ _ _ _ B1 Hsp) as (b1' & R1 & P1 & I1 & F1).
  destruct (built_block_remove_returns _ _ _ _ B2 Hsp) as (b2' & R2 & P2 & I2 & F2).
  destruct (built_block_remove_returns _ _ _ _ B3 Hsp) as (b3' & R3 & P3 & I3 & F3).
  destruct (built_block_remove_returns _ _ _ _ B4 Hsp) as (b4' & R4 & P4 & I4 & F4).
  destruct (built_block_remove_returns _ _ _ _ B5 Hsp) as (b5' & R5 & P5 & I5 & F5).
  destruct (built_block_remove_returns _ _ _ _ B6 Hsp) as (b6' & R6 & P6 & I6 & F6).
  unfold SPADEGenerator.remove_spectral_norm, SPADEGenerator.on_block,
    on_field, bind, ret.
  cbn [SPADEGenerator.opt SPADEGenerator.head_0 SPADEGenerator.G_middle_0
       SPADEGenerator.G_middle_1 SPADEGenerator.up_0 SPADEGenerator.up_1
       SPADEGenerator.up_2 SPADEGenerator.up_3 SPADEGenerator.up_4
       SPADEGenerator.set_head_0 SPADEGenerator.set_G_middle_0
       SPADEGenerator.set_G_middle_1 SPADEGenerator.set_up_0
       SPADEGenerator.set_up_1 SPADEGenerator.set_up_2
       SPADEGenerator.set_up_3 SPADEGenerator.set_up_4
       SPADEGenerator.sw SPADEGenerator.sh SPADEGenerator.fc
       SPADEGenerator.conv_img SPADEGenerator.up].
  rewrite R0. cbn -[String.eqb]. rewrite R1. cbn -[String.eqb].
  rewrite R2. cbn -[String.eqb]. rewrite R3. cbn -[String.eqb].
  rewrite R4. cbn -[String.eqb]. rewrite R5. cbn -[String.eqb].
  rewrite R6. cbn -[String.eqb].
  unfold SPADEGenerator.forward, SPADEGenerator.blocks.
  destruct u4 as [b7|].
  - destruct B7 as [Hmost B7]. rewrite Hmost.
    destruct (built_block_remove_returns _ _ _ _ B7 Hsp)
      as (b7' & R7 & P7 & I7 & F7).
    rewrite R7. eexists. split; [reflexivity|].
    cbn -[String.eqb SPADEResnetBlock.forward SPADEResnetBlock.convs
          F_interpolate Conv2d_forward Upsample_forward torch_tanh
          F_leaky_relu SPADEGenerator.more_or_most].
    rewrite Hmost. split; [|split].
    + intros b c [<- | [<- | [<- | [<- | [<- | [<- | [<- | [<- | []]]]]]]]];
        auto.
    + cbn in I0, I1, I2, I3, I4, I5, I6, I7.
      rewrite I0, I1, I2, I3, I4, I5, I6, I7. reflexivity.
    + intros seg.
      repeat (rewrite ?F0, ?F1, ?F2, ?F3, ?F4, ?F5, ?F6, ?F7;
              cbn [attribute rbind];
              match goal with
              | |- rbind ?r _ = rbind ?r _ =>
                  destruct r; cbn [rbind]; [|reflexivity]
              end).
      match goal with
      | |- context [Upsample_forward ?up ?x] =>
          destruct (Upsample_forward up x); cbn [rbind];
          [rewrite F7|]; reflexivity
      end.
  - rewrite B7. eexists. split; [reflexivity|].
    cbn -[String.eqb SPADEResnetBlock.forward SPADEResnetBlock.convs
          F_interpolate Conv2d_forward Upsample_forward torch_tanh
          F_leaky_relu SPADEGenerator.more_or_most].
    rewrite B7. split; [|split].
    + intros b c [<- | [<- | [<- | [<- | [<- | [<- | [<- | []]]]]]]]; auto.
    + cbn in I0, I1, I2, I3, I4, I5, I6.
      rewrite I0, I1, I2, I3, I4, I5, I6. reflexivity.
    + intros seg.
      repeat (rewrite ?F0, ?F1, ?F2, ?F3, ?F4, ?F5, ?F6;
              cbn [attribute rbind];
              match goal with
              | |- rbind ?r _ = rbind ?r _ =>
                  destruct r; cbn [rbind]; [|reflexivity]
              end).
      reflexivity.
Qed.

(** ** The generator *)

(** C1, as amended.  Let the generator [g] be constructed from [opt], with
    [n] stages for its mode, a base size [(sw, sh)] of at least 1 by 1, and
    at least one channel in every layer ([ngf >= 1], and [ngf >= 2] in mode
    "most"), and let the normalizer keep the shape of its input (on the
    empty batch too, when the batch is empty).  Then for every semantic map
    of shape [[b, semantic_nc, h, w]] with [b >= 0] and the other
    dimensions positive, [forward] returns a tensor of shape
    [[b, 3, sh * 2^n, sw * 2^n]], which is [tanh] of the output of the
    image convolution.  An element of it is NaN exactly where the image
    convolution gave NaN, and every other element lies in [[-1, 1]]. *)
Theorem forward_shape_and_range (G : SPADE_guarantee E) (opt : Opt)
    (log log' : Log) (g : SPADEGenerator.t) (n : Z) (seg : Tensor)
    (b h w : Z) :
  SPADEGenerator.init opt log = (Ok g, log') ->
  SPADEGenerator.num_up_layers opt = Ok n ->
  0 < SPADEGenerator.sw g -> 0 < SPADEGenerator.sh g ->
  0 < ngf opt -> (num_upsampling_layers opt = "most" -> 1 < ngf opt) ->
  shape seg = [b; semantic_nc opt; h; w] ->
  0 <= b -> (b = 0 -> SPADE_guarantee_at E 0) ->
  0 < semantic_nc opt -> 0 < h -> 0 < w ->
  exists feat img y,
    SPADEGenerator.forward g seg = Ok y
    /\ Conv2d_forward (SPADEGenerator.conv_img g) (F_leaky_relu feat 0.2)
       = Ok img
    /\ y = torch_tanh img
    /\ shape y = [b; 3; SPADEGenerator.sh g * 2 ^ n;
                  SPADEGenerator.sw g * 2 ^ n]
    /\ forall p c i j,
         (data y p c i j = NaN <-> data img p c i j = NaN)
         /\ (data y p c i j <> NaN -> within (-1) 1 (data y p c i j)).
Proof.
  intros Hinit Hn Hsw Hsh Hngf Hmost Hshape Hb G0 Hc Hh Hw.
  apply generator_init_built in Hinit.
  assert (Hseg : dims seg b (semantic_nc opt) h w)
    by (unfold dims; auto).
  assert (Gb : SPADE_guarantee_at E b).
  { destruct (Z.eq_dec b 0) as [-> | Hne]; [exact (G0 eq_refl)|].
    apply SPADE_guarantee_positive; [exact G | lia]. }
  destruct (generator_forward_dims b Gb opt g n seg h w
              Hinit Hn Hsw Hsh Hngf Hmost Hseg) as (feat & img & Hi & Hy & Hd).
  exists feat, img, (torch_tanh img).
  split; [exact Hy|]. split; [rewrite <- slope_02; exact Hi|].
  split; [reflexivity|]. split.
  - rewrite torch_tanh_shape. apply Hd.
  - intros p c i j. cbn [torch_tanh data]. split.
    + apply scalar_tanh_nan.
    + intros Hne. apply scalar_tanh_within.
      intros Heq. apply Hne. apply scalar_tanh_nan. exact Heq.
Qed.

Lemma run_stages_app g S l1 l2 x :
  run_stages g S (l1 ++ l2) x
  = (let? y := run_stages g S l1 x in run_stages g S l2 y).
Proof.
  revert x. induction l1 as [|st l1 IH]; intros x; simpl.
  - reflexivity.
  - destruct (run_stage g S st x); simpl; [apply IH | reflexivity].
Qed.

(** Destructs the calls of the goal from the outside in; a call that
    raises ends both sides. *)
Ltac by_cases_on_calls :=
  repeat (cbn [rbind run_stages run_stage attribute app];
          match goal with
          | |- context [F_interpolate ?x ?a ?b] =>
              destruct (F_interpolate x a b)
          | |- context [Conv2d_forward ?c ?x] =>
              destruct (Conv2d_forward c x)
          | |- context [Upsample_forward ?u ?x] =>
              destruct (Upsample_forward u x)
          | |- context [SPADEResnetBlock.forward ?b ?x ?s] =>
              destruct (SPADEResnetBlock.forward b x s)
          end;
          cbn [rbind run_stages run_stage attribute app];
          try reflexivity).

(** C7.  The forward pass of a constructed generator is the pipeline of the
    spec: the head block, an upsampling and middle block 0; in modes "more"
    and "most" one more upsampling with no block; middle block 1; four
    times an upsampling and a block; and in mode "most" one more upsampling
    and the fifth block.  The pipeline has as many upsamplings as the mode
    has stages.  The generator owns a fifth block exactly in mode "most",
    and this block maps [ngf] channels to [ngf // 2]. *)
Theorem generator_pipeline_by_mode (opt : Opt) (log log' : Log)
    (g : SPADEGenerator.t) :
  SPADEGenerator.init opt log = (Ok g, log') ->
  let mode := num_upsampling_layers opt in
  (forall seg,
     SPADEGenerator.forward g seg = spec_generator_forward g seg)
  /\ (exists n, SPADEGenerator.num_up_layers opt = Ok n
                /\ count_up (spec_stages g mode) = n)
  /\ (mode = "most" ->
      exists b4, SPADEGenerator.up_4 g = Some b4
                 /\ SPADEResnetBlock.fin b4 = ngf opt
                 /\ SPADEResnetBlock.fout b4 = ngf opt / 2
                 /\ In (Block b4) (spec_stages g mode))
  /\ (mode <> "most" -> SPADEGenerator.up_4 g = None)
  /\ (mode = "normal" ->
      spec_stages g mode
      = [Block (SPADEGenerator.head_0 g); Up;
         Block (SPADEGenerator.G_middle_0 g);
         Block (SPADEGenerator.G_middle_1 g);
         Up; Block (SPADEGenerator.up_0 g); Up; Block (SPADEGenerator.up_1 g);
         Up; Block (SPADEGenerator.up_2 g); Up; Block (SPADEGenerator.up_3 g)])
  /\ (mode = "more" ->
      spec_stages g mode
      = [Block (SPADEGenerator.head_0 g); Up;
         Block (SPADEGenerator.G_middle_0 g); Up;
         Block (SPADEGenerator.G_middle_1 g);
         Up; Block (SPADEGenerator.up_0 g); Up; Block (SPADEGenerator.up_1 g);
         Up; Block (SPADEGenerator.up_2 g); Up; Block (SPADEGenerator.up_3 g)]).
Proof.
  intros Hinit mode.
  pose proof (generator_init_built _ _ _ _ Hinit) as Hg.
  destruct Hg as (Hopt & Hsize & _ & _ & _ & _ & _ & _ & _ & _ & B7 & _).
  assert (Hn : exists n, SPADEGenerator.num_up_layers opt = Ok n).
  { unfold SPADEGenerator.compute_latent_vector_size in Hsize.
    destruct (SPADEGenerator.num_up_layers opt) as [n | e];
      [exists n; reflexivity | discriminate]. }
  destruct Hn as (n & Hn).
  split; [|split; [|split; [|split; [|split]]]].
  - intros seg.
    unfold SPADEGenerator.forward, spec_generator_forward, spec_stages,
      SPADEGenerator.more_or_most.
    rewrite Hopt, slope_02.
    destruct (num_up_layers_cases opt n Hn) as [[Hm _] | [[Hm _] | [Hm _]]];
      rewrite Hm in *; cbn [String.eqb Ascii.eqb Bool.eqb orb] in *.
    + by_cases_on_calls.
    + by_cases_on_calls.
    + destruct (SPADEGenerator.up_4 g) as [b4|]; [|discriminate].
      by_cases_on_calls.
  - exists n. split; [exact Hn|].
    unfold spec_stages, mode.
    destruct (num_up_layers_cases opt n Hn) as [[Hm ->] | [[Hm ->] | [Hm ->]]];
      rewrite Hm in *; cbn [String.eqb Ascii.eqb Bool.eqb orb] in *.
    + reflexivity.
    + reflexivity.
    + destruct (SPADEGenerator.up_4 g) as [b4|]; [|discriminate].
      reflexivity.
  - intros Hm. unfold mode in Hm. unfold spec_stages, mode.
    rewrite Hm in *. cbn [String.eqb Ascii.eqb Bool.eqb orb] in *.
    destruct (SPADEGenerator.up_4 g) as [b4|]; [|discriminate].
    destruct B7 as (_ & l1 & l2 & Hb4).
    destruct Hb4 as (Hfin & Hfout & _).
    exists b4. split; [reflexivity|].
    rewrite Hfin, Hfout, Z.mul_1_l.
    split; [reflexivity|]. split; [reflexivity|].
    simpl. auto 20.
  - intros Hm. apply String.eqb_neq in Hm. fold mode in B7.
    rewrite Hm in B7.
    destruct (SPADEGenerator.up_4 g); [destruct B7; discriminate|].
    reflexivity.
  - intros Hm. unfold spec_stages. rewrite Hm. reflexivity.
  - intros Hm. unfold spec_stages. rewrite Hm. reflexivity.
Qed.

(** C9.  On a generator constructed under a spectral mode,
    [remove_spectral_norm] returns; it has reached every owned block (seven,
    and the fifth upsampling block too in mode "most"): no convolution of
    any block keeps a hook, and each realises the weight it realised
    before, the removal having stored [weight_orig / sigma] as the plain
    weight.  Hence [forward] on the same input gives the same output as
    before the removal (equal in this model, whose arithmetic is exact). *)
Theorem generator_remove_spectral_norm_preserves_forward (opt : Opt)
    (log log' : Log) (g : SPADEGenerator.t) :
  SPADEGenerator.init opt log = (Ok g, log') ->
  contains "spectral" (norm_G opt) = true ->
  exists g',
    SPADEGenerator.remove_spectral_norm g = (Ok tt, g')
    /\ (forall seg,
          SPADEGenerator.forward g' seg = SPADEGenerator.forward g seg)
    /\ (forall b c, In b (SPADEGenerator.blocks g') ->
                    In c (SPADEResnetBlock.convs b) -> is_spectral c = false)
    /\ map (fun b => map realized_weight (SPADEResnetBlock.convs b))
           (SPADEGenerator.blocks g')
       = map (fun b => map realized_weight (SPADEResnetBlock.convs b))
             (SPADEGenerator.blocks g)
    /\ length (SPADEGenerator.blocks g')
       = (if String.eqb (num_upsampling_layers opt) "most"
          then 8%nat else 7%nat).
Proof.
  intros Hinit Hsp.
  pose proof (generator_init_built _ _ _ _ Hinit) as Hg.
  destruct (generator_remove_returns opt g Hg Hsp)
    as (g' & Hr & Hplain & Hw & Hf).
  exists g'. repeat match goal with |- _ /\ _ => split end; try assumption.
  apply (f_equal (@length _)) in Hw. rewrite !length_map in Hw.
  rewrite Hw. unfold SPADEGenerator.blocks.
  destruct Hg as (_ & _ & _ & _ & _ & _ & _ & _ & _ & _ & B7 & _).
  destruct (SPADEGenerator.up_4 g) as [b4|].
  - destruct B7 as [-> _]. reflexivity.
  - rewrite B7. reflexivity.
Qed.

(** Under a spectral mode a block without output channels is not
    constructed: the hook on [conv_0], whose weight has no rows, is
    refused. *)
Lemma block_init_zero_width_raises fin opt log :
  0 < fin -> contains "spectral" (norm_G opt) = true ->
  exists log',
    SPADEResnetBlock.init fin 0 opt log
    = (Err (RuntimeError
              "cannot reshape tensor of 0 elements into shape [0, -1]"),
       log').
Proof.
  intros Hfin Hc.
  unfold SPADEResnetBlock.init, bind.
  rewrite Z.min_r by lia.
  rewrite Conv2d_init_succeeds by lia.
  rewrite Conv2d_init_succeeds by lia.
  assert (Hff : (fin =? 0) = false) by (apply Z.eqb_neq; lia).
  rewrite Hff. cbn [negb]. unfold bind.
  rewrite Conv2d_init_succeeds by lia.
  unfold ret. rewrite Hc. unfold spectral_norm. cbn.
  eexists. reflexivity.
Qed.

(** With [ngf = 1] in mode "most" and a spectral mode, the constructor
    builds the first seven blocks and raises in the fifth upsampling
    block. *)
Lemma generator_init_unit_width_raises opt log size :
  num_upsampling_layers opt = "most" ->
  SPADEGenerator.compute_latent_vector_size opt = Ok size ->
  0 <= semantic_nc opt ->
  SPADE_recognizes (replace "spectral" "" (norm_G opt)) = true ->
  ngf opt = 1 -> contains "spectral" (norm_G opt) = true ->
  exists log',
    SPADEGenerator.init opt log
    = (Err (RuntimeError
              "cannot reshape tensor of 0 elements into shape [0, -1]"),
       log').
Proof.
  intros Hmost Hsize Hsem Hrec Hone Hsp.
  unfold SPADEGenerator.init, bind, lift. rewrite Hsize.
  destruct size as [w h]. rewrite Hone, Hmost.
  rewrite Conv2d_init_succeeds by lia.
  repeat match goal with
    | |- context [SPADEResnetBlock.init ?a ?b ?o ?l] =>
        let Hb := fresh "Hb" in
        destruct (block_init_succeeds a b o l) as (? & ? & Hb);
        [ lia | lia | exact Hrec | intros _; lia
        | rewrite Hb; clear Hb ]
    end.
  cbn [String.eqb Ascii.eqb Bool.eqb].
  change (1 / 2) with 0.
  match goal with
  | |- context [SPADEResnetBlock.init ?a 0 ?o ?l] =>
      destruct (block_init_zero_width_raises a o l) as (log' & Hb);
      [ lia | exact Hsp | rewrite Hb ]
  end.
  eexists. reflexivity.
Qed.

(** C10, as amended.  In mode "most", whenever the generator is constructed
    from an odd [ngf], the fifth block's output width and the image
    convolution's input width are both [ngf // 2 = (ngf - 1) / 2], one
    half less than half of [ngf].  Given a computable base size, a
    non-negative [semantic_nc] and a recognised descriptor, construction
    succeeds for every odd [ngf >= 3], and for [ngf = 1] when the mode
    string has no ["spectral"] marker; for [ngf = 1] under a spectral mode
    it raises, the fifth block having no output channel to normalise. *)
Theorem odd_ngf_final_width (opt : Opt) :
  num_upsampling_layers opt = "most" ->
  Z.odd (ngf opt) = true ->
  (forall log g log',
     SPADEGenerator.init opt log = (Ok g, log') ->
     exists b4,
       SPADEGenerator.up_4 g = Some b4
       /\ SPADEResnetBlock.fout b4 = (ngf opt - 1) / 2
       /\ in_channels (SPADEGenerator.conv_img g) = (ngf opt - 1) / 2
       /\ 2 * in_channels (SPADEGenerator.conv_img g) = ngf opt - 1)
  /\ (forall log size,
        SPADEGenerator.compute_latent_vector_size opt = Ok size ->
        0 <= semantic_nc opt ->
        SPADE_recognizes (replace "spectral" "" (norm_G opt)) = true ->
        3 <= ngf opt
        \/ (0 < ngf opt /\ contains "spectral" (norm_G opt) = false) ->
        exists g log', SPADEGenerator.init opt log = (Ok g, log'))
  /\ (forall log size,
        SPADEGenerator.compute_latent_vector_size opt = Ok size ->
        0 <= semantic_nc opt ->
        SPADE_recognizes (replace "spectral" "" (norm_G opt)) = true ->
        ngf opt = 1 -> contains "spectral" (norm_G opt) = true ->
        exists log',
          SPADEGenerator.init opt log
          = (Err (RuntimeError
                    "cannot reshape tensor of 0 elements into shape [0, -1]"),
             log')).
Proof.
  intros Hmost Hodd.
  assert (Hhalf : ngf opt / 2 = (ngf opt - 1) / 2
                  /\ 2 * (ngf opt / 2) = ngf opt - 1).
  { pose proof (Z.div_mod (ngf opt) 2 ltac:(lia)) as Hdm.
    rewrite Zmod_odd, Hodd in Hdm.
    assert (H1 : ngf opt - 1 = (ngf opt / 2) * 2) by lia.
    split; [|lia]. rewrite H1, Z.div_mul by lia. reflexivity. }
  destruct Hhalf as [Hh1 Hh2].
  split; [|split].
  - intros log g log' Hinit.
    apply generator_init_built in Hinit.
    destruct Hinit as (_ & _ & _ & _ & _ & _ & _ & _ & _ & _ & B7 & Hci & _).
    rewrite Hmost in *. cbn [String.eqb Ascii.eqb Bool.eqb] in *.
    destruct (SPADEGenerator.up_4 g) as [b4|]; [|discriminate].
    destruct B7 as (_ & l1 & l2 & Hb4).
    destruct Hb4 as (_ & Hfout & _).
    destruct Hci as (Hin & _).
    exists b4. rewrite Hfout, Hin.
    repeat split; try assumption; lia.
  - intros log size Hsize Hsem Hrec Hngf.
    apply (generator_init_succeeds opt log size Hsize Hsem); [lia | exact Hrec |].
    intros Hsp. destruct Hngf as [H3 | [_ Hns]].
    + split; lia.
    + rewrite Hns in Hsp. discriminate.
  - intros log size Hsize Hsem Hrec Hone Hsp.
    apply (generator_init_unit_width_raises opt log size); assumption.
Qed.

(** ** Further properties of the generator *)

(** The channel widths of a constructed generator chain: the projection
    convolution [fc] reads [semantic_nc] channels and feeds the head block,
    every block's output width is the next block's input width, and the
    image convolution reads the width of the last block (the fifth
    upsampling block in mode "most", [up_3] otherwise) and writes 3
    channels.  Neither [fc] nor [conv_img] is spectrally normalised,
    whatever [norm_G] is. *)
Theorem generator_channels_chain (opt : Opt) (log log' : Log)
    (g : SPADEGenerator.t) :
  SPADEGenerator.init opt log = (Ok g, log') ->
  let fin := SPADEResnetBlock.fin in
  let fout := SPADEResnetBlock.fout in
  in_channels (SPADEGenerator.fc g) = semantic_nc opt
  /\ out_channels (SPADEGenerator.fc g) = fin (SPADEGenerator.head_0 g)
  /\ fout (SPADEGenerator.head_0 g) = fin (SPADEGenerator.G_middle_0 g)
  /\ fout (SPADEGenerator.G_middle_0 g) = fin (SPADEGenerator.G_middle_1 g)
  /\ fout (SPADEGenerator.G_middle_1 g) = fin (SPADEGenerator.up_0 g)
  /\ fout (SPADEGenerator.up_0 g) = fin (SPADEGenerator.up_1 g)
  /\ fout (SPADEGenerator.up_1 g) = fin (SPADEGenerator.up_2 g)
  /\ fout (SPADEGenerator.up_2 g) = fin (SPADEGenerator.up_3 g)
  /\ match SPADEGenerator.up_4 g with
     | Some b4 =>
         fout (SPADEGenerator.up_3 g) = fin b4
         /\ fout b4 = in_channels (SPADEGenerator.conv_img g)
     | None =>
         fout (SPADEGenerator.up_3 g) = in_channels (SPADEGenerator.conv_img g)
     end
  /\ out_channels (SPADEGenerator.conv_img g) = 3
  /\ is_spectral (SPADEGenerator.fc g) = false
  /\ is_spectral (SPADEGenerator.conv_img g) = false
  /\ forall b, In b (SPADEGenerator.blocks g) ->
       in_channels (SPADEResnetBlock.conv_0 b) = fin b
       /\ out_channels (SPADEResnetBlock.conv_0 b)
          = in_channels (SPADEResnetBlock.conv_1 b)
       /\ out_channels (SPADEResnetBlock.conv_1 b) = fout b.
Proof.
  intros Hinit fin fout. apply generator_init_built in Hinit.
  destruct Hinit as (_ & _ & Hfc & B0 & B1 & B2 & B3 & B4 & B5 & B6 & B7
                     & Hci & _).
  assert (W : forall a c o b, built_block a c o b ->
                fin b = a /\ fout b = c
                /\ in_channels (SPADEResnetBlock.conv_0 b) = fin b
                /\ out_channels (SPADEResnetBlock.conv_0 b)
                   = in_channels (SPADEResnetBlock.conv_1 b)
                /\ out_channels (SPADEResnetBlock.conv_1 b) = fout b).
  { intros a c o b (l1 & l2 & Hb).
    destruct Hb as (Hf & Hg & _ & _ & (Hi0 & Ho0 & _) & (Hi1 & Ho1 & _) & _).
    unfold fin, fout. rewrite Hf, Hg, Hi0, Ho0, Hi1, Ho1. auto. }
  pose proof (W _ _ _ _ B0) as (F0 & G0 & W0).
  pose proof (W _ _ _ _ B1) as (F1 & G1 & W1).
  pose proof (W _ _ _ _ B2) as (F2 & G2 & W2).
  pose proof (W _ _ _ _ B3) as (F3 & G3 & W3).
  pose proof (W _ _ _ _ B4) as (F4 & G4 & W4).
  pose proof (W _ _ _ _ B5) as (F5 & G5 & W5).
  pose proof (W _ _ _ _ B6) as (F6 & G6 & W6).
  destruct Hfc as (Hfi & Hfo & _ & _ & _ & Hfs).
  destruct Hci as (Hcii & Hcio & _ & _ & _ & Hcs).
  rewrite Hfi, Hfo, F0, G0, F1, G1, F2, G2, F3, G3, F4, G4, F5, G5, F6, G6,
    Hcii, Hcio.
  repeat match goal with |- _ /\ _ => split end; try reflexivity;
    try assumption.
  - destruct (SPADEGenerator.up_4 g) as [b4|].
    + destruct B7 as [-> B7]. pose proof (W _ _ _ _ B7) as (F7 & G7 & _).
      rewrite F7, G7. split; reflexivity.
    + rewrite B7. apply Z.mul_1_l.
  - intros b Hb. unfold SPADEGenerator.blocks in Hb.
    apply in_app_or in Hb as [Hb | Hb].
    + simpl in Hb.
      destruct Hb as [<- | [<- | [<- | [<- | [<- | [<- | [<- | []]]]]]]];
        assumption.
    + destruct (SPADEGenerator.up_4 g) as [b4|]; [|destruct Hb].
      destruct Hb as [<- | []]. destruct B7 as [_ B7].
      apply (W _ _ _ _ B7).
Qed.

(** The guarantee of the block's forward operation: a constructed block of
    positive widths maps a feature tensor of shape [[B, fin, H, W]] to one
    of shape [[B, fout, H, W]], whatever the resolution of the semantic
    map is (it need not be that of the features). *)
Theorem block_forward_keeps_size (G : SPADE_guarantee E) (fin fout : Z)
    (opt : Opt) (log log' : Log) (blk : SPADEResnetBlock.t) (x seg : Tensor)
    (b h w h0 w0 : Z) :
  SPADEResnetBlock.init fin fout opt log = (Ok blk, log') ->
  0 < fin -> 0 < fout ->
  shape x = [b; fin; h; w] -> 0 < b -> 0 < h -> 0 < w ->
  shape seg = [b; semantic_nc opt; h0; w0] ->
  0 < semantic_nc opt -> 0 < h0 -> 0 < w0 ->
  exists y,
    SPADEResnetBlock.forward blk x seg = Ok y /\ shape y = [b; fout; h; w].
Proof.
  intros Hinit Hfin Hfout Hx Hb Hh Hw Hs Hc Hh0 Hw0.
  apply built_block_intro in Hinit.
  destruct (block_forward_dims b (SPADE_guarantee_positive b G Hb)
              fin fout opt blk x seg h w h0 w0 Hinit
              Hfin Hfout) as (y & Hy & Hd & _).
  - unfold dims. repeat split; auto; lia.
  - unfold dims. repeat split; auto; lia.
  - exists y. split; assumption.
Qed.

(** A semantic map whose channel count is not the configured [semantic_nc]
    is refused by the projection convolution, the first layer with weights:
    [forward] raises a [RuntimeError] before any residual block runs. *)
Theorem forward_rejects_wrong_channels (opt : Opt) (log log' : Log)
    (g : SPADEGenerator.t) (seg : Tensor) :
  SPADEGenerator.init opt log = (Ok g, log') ->
  0 < ngf opt ->
  0 < SPADEGenerator.sw g -> 0 < SPADEGenerator.sh g ->
  0 < channels seg -> 0 < height seg -> 0 < width seg ->
  channels seg <> semantic_nc opt ->
  exists base,
    F_interpolate seg (SPADEGenerator.sh g) (SPADEGenerator.sw g) = Ok base
    /\ Conv2d_forward (SPADEGenerator.fc g) base
       = Err (RuntimeError
                "expected input to have as many channels as the weight")
    /\ SPADEGenerator.forward g seg
       = Err (RuntimeError
                "expected input to have as many channels as the weight").
Proof.
  intros Hinit Hngf Hsw Hsh Hc Hh Hw Hne.
  apply generator_init_built in Hinit.
  destruct Hinit as (_ & _ & (Hfi & Hfo & _) & _).
  unfold SPADEGenerator.forward, F_interpolate, resample, resample_ok.
  rewrite !(proj2 (Z.ltb_lt _ _)) by lia. cbn [andb rbind].
  eexists. split; [reflexivity|].
  assert (Hconv : forall base, channels base = channels seg ->
            Conv2d_forward (SPADEGenerator.fc g) base
            = Err (RuntimeError
                     "expected input to have as many channels as the weight")).
  { intros base Hb. unfold Conv2d_forward. rewrite Hfo, Hfi, Hb.
    assert (H1 : (16 * ngf opt <? 1) = false) by (apply Z.ltb_ge; lia).
    apply Z.eqb_neq in Hne. rewrite H1, Hne. reflexivity. }
  split.
  - apply Hconv. reflexivity.
  - rewrite Hconv by reflexivity. reflexivity.
Qed.

(** The width of the output image is the crop size rounded down to a
    multiple of [2^n], [n] being the number of stages: it is the crop size
    itself exactly when [2^n] divides it, and otherwise falls short of it
    by the remainder. *)
Theorem output_width_truncates_crop_size (G : SPADE_guarantee E) (opt : Opt)
    (log log' : Log) (g : SPADEGenerator.t) (n : Z) (seg : Tensor)
    (b h w : Z) :
  SPADEGenerator.init opt log = (Ok g, log') ->
  SPADEGenerator.num_up_layers opt = Ok n ->
  2 ^ n <= crop_size opt -> 0 < SPADEGenerator.sh g ->
  0 < ngf opt -> (num_upsampling_layers opt = "most" -> 1 < ngf opt) ->
  shape seg = [b; semantic_nc opt; h; w] ->
  0 < b -> 0 < semantic_nc opt -> 0 < h -> 0 < w ->
  exists y,
    SPADEGenerator.forward g seg = Ok y
    /\ width y = crop_size opt - crop_size opt mod 2 ^ n
    /\ (width y = crop_size opt <-> crop_size opt mod 2 ^ n = 0).
Proof.
  intros Hinit Hn Hcrop Hsh Hngf Hmost Hshape Hb Hc Hh Hw.
  apply generator_init_built in Hinit.
  assert (Hpow : 0 < 2 ^ n).
  { destruct (num_up_layers_cases opt n Hn) as [[_ ->] | [[_ ->] | [_ ->]]];
      reflexivity. }
  assert (Hsw : SPADEGenerator.sw g = crop_size opt / 2 ^ n).
  { destruct Hinit as (_ & Hsize & _).
    unfold SPADEGenerator.compute_latent_vector_size in Hsize.
    rewrite Hn in Hsize. cbn [rbind] in Hsize.
    destruct (truediv (crop_size opt / 2 ^ n) (aspect_ratio opt));
      [|discriminate].
    cbn [rbind] in Hsize. destruct (round a); [|discriminate].
    cbn [rbind] in Hsize. inversion Hsize. reflexivity. }
  assert (Hpos : 0 < SPADEGenerator.sw g).
  { rewrite Hsw. apply Z.div_str_pos. lia. }
  assert (Hseg : dims seg b (semantic_nc opt) h w)
    by (unfold dims; repeat split; auto; lia).
  destruct (generator_forward_dims b (SPADE_guarantee_positive b G Hb)
              opt g n seg h w
              Hinit Hn Hpos Hsh Hngf Hmost Hseg) as (_ & img & _ & Hy & Hd).
  exists (torch_tanh img). split; [exact Hy|].
  apply dims_fields in Hd as (_ & _ & _ & Hwd).
  assert (Hwidth : width (torch_tanh img)
                   = crop_size opt - crop_size opt mod 2 ^ n).
  { change (width (torch_tanh img)) with (width img).
    rewrite Hwd, Hsw.
    pose proof (Z.div_mod (crop_size opt) (2 ^ n) ltac:(lia)). lia. }
  split; [exact Hwidth|]. rewrite Hwidth. lia.
Qed.

(** ** Further properties of [remove_spectral_norm] *)

Lemma generator_remove_raises (g : SPADEGenerator.t) :
  is_spectral (SPADEResnetBlock.conv_0 (SPADEGenerator.head_0 g)) = false ->
  SPADEGenerator.remove_spectral_norm g
  = (Err (ValueError "spectral_norm of 'weight' not found in module"), g).
Proof.
  intros H.
  unfold SPADEGenerator.remove_spectral_norm, SPADEGenerator.on_block,
    on_field, bind.
  rewrite (block_remove_raises _ H). destruct g. reflexivity.
Qed.

(** [remove_spectral_norm] on a generator constructed without the
    ["spectral"] marker raises torch's [ValueError] at the head block and
    leaves the generator as it was; on one constructed with the marker it
    returns once, and a second call raises the same error, again without
    changing the generator. *)
Theorem generator_remove_spectral_norm_once (opt : Opt) (log log' : Log)
    (g : SPADEGenerator.t) :
  SPADEGenerator.init opt log = (Ok g, log') ->
  let not_found :=
    Err (ValueError "spectral_norm of 'weight' not found in module") in
  (contains "spectral" (norm_G opt) = false ->
   SPADEGenerator.remove_spectral_norm g = (not_found, g))
  /\ (contains "spectral" (norm_G opt) = true ->
      exists g',
        SPADEGenerator.remove_spectral_norm g = (Ok tt, g')
        /\ SPADEGenerator.remove_spectral_norm g' = (not_found, g')).
Proof.
  intros Hinit not_found.
  pose proof (generator_init_built _ _ _ _ Hinit) as Hg.
  split; intros Hsp.
  - apply generator_remove_raises.
    destruct Hg as (_ & _ & _ & B0 & _).
    destruct (built_block_convs _ _ _ _ B0) as [Hc _].
    rewrite Hc; [exact Hsp | left; reflexivity].
  - destruct (generator_remove_returns opt g Hg Hsp)
      as (g' & Hr & Hplain & _ & _).
    exists g'. split; [exact Hr|].
    apply generator_remove_raises.
    apply (Hplain (SPADEGenerator.head_0 g')); left; reflexivity.
Qed.

Lemma same_geometry_removed (c c' : Conv2d) :
  remove_spectral_norm c = Ok c' -> same_geometry c' c.
Proof.
  unfold remove_spectral_norm. destruct (weight c); [discriminate|].
  intros H. inversion H. unfold same_geometry. simpl. auto 10.
Qed.

Lemma block_remove_frame (b : SPADEResnetBlock.t) :
  (forall c, In c (SPADEResnetBlock.convs b) -> is_spectral c = true) ->
  match SPADEResnetBlock.conv_s b with
  | Some _ => SPADEResnetBlock.learned_shortcut b = true
  | None => SPADEResnetBlock.learned_shortcut b = false
  end ->
  exists b',
    SPADEResnetBlock.remove_spectral_norm b = (Ok tt, b')
    /\ same_block_frame b' b.
Proof.
  destruct b as [fin fout opt ls c0 c1 cs n0 n1 ns].
  unfold SPADEResnetBlock.convs. cbn [SPADEResnetBlock.conv_0
    SPADEResnetBlock.conv_1 SPADEResnetBlock.conv_s
    SPADEResnetBlock.learned_shortcut].
  intros Hsp Hcs.
  assert (H0 : is_spectral c0 = true) by (apply Hsp; simpl; auto).
  assert (H1 : is_spectral c1 = true) by (apply Hsp; simpl; auto).
  destruct c0 as [id0 i0 o0 k0 p0 [w0 | w0 u0 v0] bv0]; [discriminate H0|].
  destruct c1 as [id1 i1 o1 k1 p1 [w1 | w1 u1 v1] bv1]; [discriminate H1|].
  destruct cs as [c2|]; subst ls.
  - assert (H2 : is_spectral c2 = true) by (apply Hsp; simpl; auto).
    destruct c2 as [id2 i2 o2 k2 p2 [w2 | w2 u2 v2] bv2]; [discriminate H2|].
    eexists. split; [reflexivity|].
    unfold same_block_frame, same_geometry. simpl.
    repeat match goal with |- _ /\ _ => split end; try reflexivity.
    repeat constructor.
  - eexists. split; [reflexivity|].
    unfold same_block_frame, same_geometry. simpl.
    repeat match goal with |- _ /\ _ => split end; try reflexivity.
    repeat constructor.
Qed.

Lemma built_block_remove_frame fin fout opt b :
  built_block fin fout opt b ->
  contains "spectral" (norm_G opt) = true ->
  exists b',
    SPADEResnetBlock.remove_spectral_norm b = (Ok tt, b')
    /\ same_block_frame b' b.
Proof.
  intros Hb Hsp. apply built_block_convs in Hb as [Hc Hs].
  apply block_remove_frame; [|exact Hs].
  intros c Hin. rewrite (Hc c Hin). exact Hsp.
Qed.

(** Removal rewrites nothing but the weights of the blocks' convolutions:
    the configuration, the base size, the projection and image
    convolutions and the upsampling operator are the same objects after it,
    and every block keeps its widths, its normalizers, and the identity,
    geometry and bias of each of its convolutions. *)
Theorem generator_remove_spectral_norm_frame (opt : Opt) (log log' : Log)
    (g g' : SPADEGenerator.t) :
  SPADEGenerator.init opt log = (Ok g, log') ->
  SPADEGenerator.remove_spectral_norm g = (Ok tt, g') ->
  SPADEGenerator.opt g' = SPADEGenerator.opt g
  /\ SPADEGenerator.sw g' = SPADEGenerator.sw g
  /\ SPADEGenerator.sh g' = SPADEGenerator.sh g
  /\ SPADEGenerator.fc g' = SPADEGenerator.fc g
  /\ SPADEGenerator.conv_img g' = SPADEGenerator.conv_img g
  /\ SPADEGenerator.up g' = SPADEGenerator.up g
  /\ Forall2 same_block_frame (SPADEGenerator.blocks g')
       (SPADEGenerator.blocks g).
Proof.
  intros Hinit Hrem.
  pose proof (generator_init_built _ _ _ _ Hinit) as Hg.
  assert (Hsp : contains "spectral" (norm_G opt) = true).
  { destruct (contains "spectral" (norm_G opt)) eqn:Hc; [reflexivity|].
    destruct Hg as (_ & _ & _ & B0 & _).
    destruct (built_block_convs _ _ _ _ B0) as [Hc0 _].
    rewrite generator_remove_raises in Hrem; [discriminate|].
    rewrite Hc0; [exact Hc | left; reflexivity]. }
  destruct g as [o w h fc b0 b1 b2 b3 b4 b5 b6 u4 ci u].
  destruct Hg as (Hopt & _ & _ & B0 & B1 & B2 & B3 & B4 & B5 & B6 & B7 & _).
  cbn [SPADEGenerator.opt SPADEGenerator.head_0 SPADEGenerator.G_middle_0
       SPADEGenerator.G_middle_1 SPADEGenerator.up_0 SPADEGenerator.up_1
       SPADEGenerator.up_2 SPADEGenerator.up_3 SPADEGenerator.up_4] in *.
  subst o.
  destruct (built_block_remove_frame _ _ _ _ B0 Hsp) as (b0' & R0 & F0).
  destruct (built_block_remove_frame _ _ _ _ B1 Hsp) as (b1' & R1 & F1).
  destruct (built_block_remove_frame _ _ _ _ B2 Hsp) as (b2' & R2 & F2).
  destruct (built_block_remove_frame _ _ _ _ B3 Hsp) as (b3' & R3 & F3).
  destruct (built_block_remove_frame _ _ _ _ B4 Hsp) as (b4' & R4 & F4).
  destruct (built_block_remove_frame _ _ _ _ B5 Hsp) as (b5' & R5 & F5).
  destruct (built_block_remove_frame _ _ _ _ B6 Hsp) as (b6' & R6 & F6).
  revert Hrem.
  unfold SPADEGenerator.remove_spectral_norm, SPADEGenerator.on_block,
    on_field, bind, ret.
  cbn [SPADEGenerator.opt SPADEGenerator.head_0 SPADEGenerator.G_middle_0
       SPADEGenerator.G_middle_1 SPADEGenerator.up_0 SPADEGenerator.up_1
       SPADEGenerator.up_2 SPADEGenerator.up_3 SPADEGenerator.up_4
       SPADEGenerator.set_head_0 SPADEGenerator.set_G_middle_0
       SPADEGenerator.set_G_middle_1 SPADEGenerator.set_up_0
       SPADEGenerator.set_up_1 SPADEGenerator.set_up_2
       SPADEGenerator.set_up_3 SPADEGenerator.set_up_4
       SPADEGenerator.sw SPADEGenerator.sh SPADEGenerator.fc
       SPADEGenerator.conv_img SPADEGenerator.up].
  rewrite R0. cbn -[String.eqb]. rewrite R1. cbn -[String.eqb].
  rewrite R2. cbn -[String.eqb]. rewrite R3. cbn -[String.eqb].
  rewrite R4. cbn -[String.eqb]. rewrite R5. cbn -[String.eqb].
  rewrite R6. cbn -[String.eqb].
  destruct u4 as [b7|].
  - destruct B7 as [Hmost B7]. rewrite Hmost.
    destruct (built_block_remove_frame _ _ _ _ B7 Hsp) as (b7' & R7 & F7).
    rewrite R7. intros Hrem. inversion Hrem; subst g'.
    unfold SPADEGenerator.blocks. simpl.
    repeat match goal with |- _ /\ _ => split end; try reflexivity.
    repeat (constructor; [assumption|]). constructor.
  - rewrite B7. intros Hrem. inversion Hrem; subst g'.
    unfold SPADEGenerator.blocks. simpl.
    repeat match goal with |- _ /\ _ => split end; try reflexivity.
    repeat (constructor; [assumption|]). constructor.
Qed.

(** ** Further properties of the base size *)

(** A zero aspect ratio makes the constructor raise Python's
    [ZeroDivisionError], and a NaN one the [ValueError] of [round]; in both
    cases nothing has been created.  (The base width is assumed to be
    within the range of a float.) *)
Theorem degenerate_aspect_ratio_raises (opt : Opt) (n : Z) (x : spec_float)
    (log : Log) :
  SPADEGenerator.num_up_layers opt = Ok n ->
  float_of_int (crop_size opt / 2 ^ n) = Ok x ->
  (forall s, aspect_ratio opt = S754_zero s ->
     SPADEGenerator.init opt log
     = (Err (ZeroDivisionError "float division by zero"), log))
  /\ (aspect_ratio opt = S754_nan ->
      SPADEGenerator.init opt log
      = (Err (ValueError "cannot convert float NaN to integer"), log)).
Proof.
  intros Hn Hx. split.
  - intros s Ha.
    unfold SPADEGenerator.init, bind, lift,
      SPADEGenerator.compute_latent_vector_size.
    rewrite Hn. cbn [rbind]. unfold truediv. rewrite Hx, Ha. reflexivity.
  - intros Ha.
    unfold SPADEGenerator.init, bind, lift,
      SPADEGenerator.compute_latent_vector_size.
    rewrite Hn. cbn [rbind]. unfold truediv. rewrite Hx, Ha.
    destruct x; reflexivity.
Qed.

(** A crop size below [2^n] leaves no base width: the constructor accepts
    it, the constructed generator has [sw = 0], and its [forward] raises on
    every input, at the first resampling. *)
Theorem crop_size_below_stride_fails (opt : Opt) (log log' : Log)
    (g : SPADEGenerator.t) (n : Z) :
  SPADEGenerator.init opt log = (Ok g, log') ->
  SPADEGenerator.num_up_layers opt = Ok n ->
  0 <= crop_size opt < 2 ^ n ->
  SPADEGenerator.sw g = 0
  /\ forall seg,
       SPADEGenerator.forward g seg
       = Err (RuntimeError "Input and output sizes should be greater than 0").
Proof.
  intros Hinit Hn Hcrop. apply generator_init_built in Hinit.
  assert (Hpow : 0 < 2 ^ n).
  { destruct (num_up_layers_cases opt n Hn) as [[_ ->] | [[_ ->] | [_ ->]]];
      reflexivity. }
  assert (Hsw : SPADEGenerator.sw g = 0).
  { destruct Hinit as (_ & Hsize & _).
    unfold SPADEGenerator.compute_latent_vector_size in Hsize.
    rewrite Hn in Hsize. cbn [rbind] in Hsize.
    destruct (truediv (crop_size opt / 2 ^ n) (aspect_ratio opt));
      [|discriminate].
    cbn [rbind] in Hsize. destruct (round a); [|discriminate].
    cbn [rbind] in Hsize. inversion Hsize.
    apply Z.div_small. lia. }
  split; [exact Hsw|]. intros seg.
  unfold SPADEGenerator.forward, F_interpolate, resample, resample_ok.
  assert (H0 : (0 <? SPADEGenerator.sw g) = false) by (apply Z.ltb_ge; lia).
  rewrite H0, andb_false_r. reflexivity.
Qed.

Lemma holds_from_spec (count : nat) (check : Z -> bool) :
  forall k j,
    holds_from count k check = true ->
    k <= j < k + Z.of_nat count -> check j = true.
Proof.
  induction count as [|count IH]; intros k j H Hj.
  - simpl in Hj. lia.
  - cbn [holds_from] in H. apply andb_prop in H as [Hk Hrest].
    destruct (Z.eq_dec j k) as [-> | Hne]; [exact Hk|].
    apply (IH (k + 1)); [exact Hrest | lia].
Qed.

Lemma holds_below_2_13_spec (check : Z -> bool) (k : Z) :
  holds_below_2_13 check = true -> 0 <= k < 8192 -> check k = true.
Proof.
  unfold holds_below_2_13. intros H Hk.
  apply (holds_from_spec _ _ 0 k H). rewrite Z2Nat.id; lia.
Qed.

Lemma round_quotient_one_below :
  holds_below_2_13
    (fun k => match round_quotient k float_one with
              | Ok v => v =? k
              | Err _ => false
              end) = true.
Proof. vm_compute. reflexivity. Qed.

Lemma round_quotient_two_below :
  holds_below_2_13
    (fun k => match round_quotient k float_two with
              | Ok v => v =? half_to_even k
              | Err _ => false
              end) = true.
Proof. vm_compute. reflexivity. Qed.

Lemma base_width_below (opt : Opt) (n : Z) :
  SPADEGenerator.num_up_layers opt = Ok n ->
  0 <= crop_size opt < 2 ^ 18 ->
  0 <= crop_size opt / 2 ^ n < 8192.
Proof.
  intros Hn Hc.
  assert (Hpow : 32 <= 2 ^ n).
  { destruct (num_up_layers_cases opt n Hn) as [[_ ->] | [[_ ->] | [_ ->]]];
      discriminate. }
  split.
  - apply Z.div_pos; lia.
  - apply Z.div_lt_upper_bound; [lia|].
    change (2 ^ 18) with 262144 in Hc. nia.
Qed.

Lemma latent_size_by_quotient (opt : Opt) (n : Z) :
  SPADEGenerator.num_up_layers opt = Ok n ->
  SPADEGenerator.compute_latent_vector_size opt
  = (let? sh := round_quotient (crop_size opt / 2 ^ n) (aspect_ratio opt) in
     Ok (crop_size opt / 2 ^ n, sh)).
Proof.
  intros Hn. unfold SPADEGenerator.compute_latent_vector_size, round_quotient.
  rewrite Hn. cbn [rbind].
  destruct (truediv (crop_size opt / 2 ^ n) (aspect_ratio opt)); reflexivity.
Qed.

(** With aspect ratio 1.0 the base is square: for every crop size from 0
    to [2^18 - 1] the base height [round(sw / 1.0)] is the base width, so a
    constructed generator has [sh = sw]. *)
Theorem unit_aspect_ratio_square_base (opt : Opt) (n : Z) :
  SPADEGenerator.num_up_layers opt = Ok n ->
  aspect_ratio opt = float_one ->
  0 <= crop_size opt < 2 ^ 18 ->
  SPADEGenerator.compute_latent_vector_size opt
  = Ok (crop_size opt / 2 ^ n, crop_size opt / 2 ^ n)
  /\ forall log g log',
       SPADEGenerator.init opt log = (Ok g, log') ->
       SPADEGenerator.sh g = SPADEGenerator.sw g.
Proof.
  intros Hn Ha Hc.
  assert (Hsize : SPADEGenerator.compute_latent_vector_size opt
                  = Ok (crop_size opt / 2 ^ n, crop_size opt / 2 ^ n)).
  { rewrite (latent_size_by_quotient opt n Hn), Ha.
    pose proof (holds_below_2_13_spec _ _ round_quotient_one_below
                  (base_width_below opt n Hn Hc)) as H.
    cbv beta in H.
    destruct (round_quotient (crop_size opt / 2 ^ n) float_one) as [v | e];
      [|discriminate].
    apply Z.eqb_eq in H. subst v. reflexivity. }
  split; [exact Hsize|].
  intros log g log' Hinit. apply generator_init_built in Hinit.
  destruct Hinit as (_ & Hs & _). rewrite Hsize in Hs.
  inversion Hs. reflexivity.
Qed.

(** With aspect ratio 2.0 the base height is half the base width with ties
    going to the even neighbour, as Python's [round] does (for every crop
    size from 0 to [2^18 - 1]): widths 1, 3, 5, 7 give heights 0, 2, 2, 4.
    In particular a base width of 1 gives a base height of 0. *)
Theorem double_aspect_ratio_rounds_to_even (opt : Opt) (n : Z) :
  SPADEGenerator.num_up_layers opt = Ok n ->
  aspect_ratio opt = float_two ->
  0 <= crop_size opt < 2 ^ 18 ->
  SPADEGenerator.compute_latent_vector_size opt
  = Ok (crop_size opt / 2 ^ n, half_to_even (crop_size opt / 2 ^ n))
  /\ (2 ^ n <= crop_size opt < 2 * 2 ^ n ->
      SPADEGenerator.compute_latent_vector_size opt = Ok (1, 0)).
Proof.
  intros Hn Ha Hc.
  assert (Hsize : SPADEGenerator.compute_latent_vector_size opt
                  = Ok (crop_size opt / 2 ^ n,
                        half_to_even (crop_size opt / 2 ^ n))).
  { rewrite (latent_size_by_quotient opt n Hn), Ha.
    pose proof (holds_below_2_13_spec _ _ round_quotient_two_below
                  (base_width_below opt n Hn Hc)) as H.
    cbv beta in H.
    destruct (round_quotient (crop_size opt / 2 ^ n) float_two) as [v | e];
      [|discriminate].
    apply Z.eqb_eq in H. subst v. reflexivity. }
  split; [exact Hsize|].
  intros Hone. rewrite Hsize.
  assert (H1 : crop_size opt / 2 ^ n = 1).
  { symmetry. apply (Z.div_unique _ _ 1 (crop_size opt - 2 ^ n)); lia. }
  rewrite H1. reflexivity.
Qed.


(** ** The source index of the resampling *)

Lemma binary_round_aux_not_negative p e m ex l :
  not_negative (binary_round_aux p e false m ex l).
Proof.
  unfold binary_round_aux.
  destruct (shr_fexp p e m ex l) as [r1 e1].
  destruct (shr_fexp p e _ e1 loc_Exact) as [r2 e2].
  destruct (shr_m r2); simpl; trivial.
  destruct (e2 <=? e - p); simpl; trivial.
Qed.

Lemma float32_of_int_not_negative n :
  0 <= n -> not_negative (float32_of_int n).
Proof.
  intros Hn. unfold float32_of_int, binary_normalize.
  destruct n as [|q|q]; simpl; trivial; [|lia].
  unfold binary_round.
  destruct (shl_align q 0 _) as [mz ez].
  apply binary_round_aux_not_negative.
Qed.

Lemma SFdiv_not_negative p e x y :
  not_negative x -> not_negative y -> not_negative (SFdiv p e x y).
Proof.
  destruct x as [sx | sx | | sx mx ex], y as [sy | sy | | sy my ey];
    simpl; trivial.
  intros -> ->.
  destruct (SFdiv_core_binary p e (Z.pos mx) ex (Z.pos my) ey)
    as [[mz ez] lz].
  apply binary_round_aux_not_negative.
Qed.

Lemma SFmul_not_negative p e x y :
  not_negative x -> not_negative y -> not_negative (SFmul p e x y).
Proof.
  destruct x as [sx | sx | | sx mx ex], y as [sy | sy | | sy my ey];
    simpl; trivial.
  intros -> ->. apply binary_round_aux_not_negative.
Qed.

Lemma floorf_not_negative x : not_negative x -> 0 <= floorf x.
Proof.
  destruct x as [s | s | | s m e]; cbn [floorf not_negative]; try lia.
  intros ->. destruct (0 <=? e) eqn:He.
  - apply Z.leb_le in He.
    pose proof (Z.pow_pos_nonneg 2 e ltac:(lia) He). nia.
  - apply Z.leb_gt in He.
    apply Z.div_pos; [lia|]. apply Z.pow_pos_nonneg; lia.
Qed.

(** The source index lies in the input. *)
Lemma nearest_idx_bounds (i input_size output_size : Z) :
  0 < input_size -> 0 <= i < output_size ->
  0 <= nearest_idx i input_size output_size < input_size.
Proof.
  intros Hin Hi. unfold nearest_idx.
  destruct (Z.eqb_spec output_size input_size) as [Heq | Hne]; [lia|].
  destruct (Z.eqb_spec output_size (2 * input_size)) as [Heq | Hne2].
  - rewrite Z.shiftr_div_pow2 by lia. change (2 ^ 1) with 2.
    split; [apply Z.div_pos; lia | apply Z.div_lt_upper_bound; lia].
  - cbv zeta.
    pose proof (floorf_not_negative
                  (SFmul prec32 emax32 (float32_of_int i)
                     (SFdiv prec32 emax32 (float32_of_int input_size)
                        (float32_of_int output_size)))) as H.
    assert (0 <= floorf
                   (SFmul prec32 emax32 (float32_of_int i)
                      (SFdiv prec32 emax32 (float32_of_int input_size)
                         (float32_of_int output_size)))).
    { apply H. apply SFmul_not_negative.
      - apply float32_of_int_not_negative. lia.
      - apply SFdiv_not_negative; apply float32_of_int_not_negative; lia. }
    lia.
Qed.

(** ** NaN through the layers *)

Lemma scalar_add_nan_l a : scalar_add NaN a = NaN.
Proof. destruct a; reflexivity. Qed.

Lemma scalar_add_nan_r a : scalar_add a NaN = NaN.
Proof. destruct a; reflexivity. Qed.

Lemma sum_scalars_nan n f k :
  0 <= k < n -> f k = NaN -> sum_scalars n f = NaN.
Proof.
  intros Hk Hf. unfold sum_scalars.
  assert (Hin : In (Z.to_nat k) (seq 0 (Z.to_nat n))) by (apply in_seq; lia).
  revert Hin. generalize (seq 0 (Z.to_nat n)) as l.
  induction l as [|a l IH]; simpl; [tauto|].
  intros [-> | Hin].
  - rewrite Z2Nat.id by lia. rewrite Hf. apply scalar_add_nan_l.
  - rewrite (IH Hin). apply scalar_add_nan_r.
Qed.

Lemma resample_nan x out_h out_w src_i src_j y :
  resample x out_h out_w src_i src_j = Ok y ->
  (forall i, 0 <= i < out_h -> 0 <= src_i i < height x) ->
  (forall j, 0 <= j < out_w -> 0 <= src_j j < width x) ->
  all_nan x -> all_nan y.
Proof.
  unfold resample. intros H Hi Hj Hx.
  destruct (resample_ok x out_h out_w); [|discriminate].
  destruct (0 <? channels x); [|discriminate].
  inversion H. intros b c i j Hc Hi' Hj'. simpl in *.
  apply Hx; auto.
Qed.

Lemma resample_sizes x out_h out_w src_i src_j y :
  resample x out_h out_w src_i src_j = Ok y ->
  0 < height x /\ 0 < width x.
Proof.
  unfold resample, resample_ok. intros H.
  destruct (0 <? height x) eqn:Hh; [|discriminate].
  destruct (0 <? width x) eqn:Hw; [|discriminate].
  apply Z.ltb_lt in Hh, Hw. split; assumption.
Qed.

Lemma F_interpolate_nan x out_h out_w y :
  F_interpolate x out_h out_w = Ok y -> all_nan x -> all_nan y.
Proof.
  unfold F_interpolate. intros H.
  destruct (resample_sizes _ _ _ _ _ _ H) as [Hh Hw].
  apply (resample_nan _ _ _ _ _ _ H); intros;
    apply nearest_idx_bounds; assumption.
Qed.

Lemma Upsample_forward_nan u x y :
  Upsample_forward u x = Ok y -> u = mkUpsample 2 ->
  all_nan x -> all_nan y.
Proof.
  unfold Upsample_forward. intros H ->. simpl in H.
  apply (resample_nan _ _ _ _ _ _ H); intros k Hk;
    (split; [apply Z.div_pos; lia | apply Z.div_lt_upper_bound; lia]).
Qed.

Lemma F_leaky_relu_nan x slope : all_nan x -> all_nan (F_leaky_relu x slope).
Proof.
  intros Hx b c i j Hc Hi Hj. simpl in *. rewrite Hx by assumption.
  reflexivity.
Qed.

Lemma Conv2d_forward_nan cv in_ch out_ch ksize pad wb sp x y :
  conv_is cv in_ch out_ch ksize pad wb sp ->
  0 < in_ch -> 0 <= pad -> 2 * pad = ksize - 1 ->
  Conv2d_forward cv x = Ok y ->
  all_nan x -> all_nan y.
Proof.
  intros (Ei & Eo & Ek & Ep & _ & _) Hin Hpad Hk H Hx.
  unfold Conv2d_forward in H. rewrite Ei, Eo, Ek, Ep in H.
  destruct (out_ch <? 1); [discriminate|].
  destruct (negb (channels x =? in_ch)) eqn:Hc; [discriminate|].
  destruct ((height x + 2 * pad <? ksize) || (width x + 2 * pad <? ksize));
    [discriminate|].
  apply negb_false_iff, Z.eqb_eq in Hc.
  remember (2 * pad) as pp eqn:Hpp in H.
  injection H as <-. intros b o i j Ho Hi Hj.
  cbn [data channels height width] in *.
  rewrite (sum_scalars_nan in_ch _ 0); [reflexivity | lia |].
  rewrite (sum_scalars_nan ksize _ pad); [reflexivity | lia |].
  rewrite (sum_scalars_nan ksize _ pad); [reflexivity | lia |].
  replace (i + pad - pad) with i by lia.
  replace (j + pad - pad) with j by lia.
  unfold padded.
  rewrite (proj2 (Z.leb_le 0 i)), (proj2 (Z.ltb_lt i _)),
    (proj2 (Z.leb_le 0 j)), (proj2 (Z.ltb_lt j _)) by lia.
  cbn [andb]. rewrite Hx by lia. reflexivity.
Qed.

Lemma tensor_add_nan x y z :
  tensor_add x y = Ok z -> all_nan y -> all_nan z.
Proof.
  unfold tensor_add, same_shape. intros H Hy.
  destruct (batch x =? batch y); [|discriminate].
  destruct (channels x =? channels y) eqn:Hc; [|discriminate].
  destruct (height x =? height y) eqn:Hh; [|discriminate].
  destruct (width x =? width y) eqn:Hw; [|discriminate].
  apply Z.eqb_eq in Hc, Hh, Hw.
  inversion H. intros b c i j Hc' Hi Hj. simpl in *.
  rewrite Hy by lia. apply scalar_add_nan_r.
Qed.

Lemma block_forward_nan (N : SPADE_keeps_nan E) fin fout opt blk x seg y :
  built_block fin fout opt blk ->
  0 < fin -> 0 < fout ->
  SPADEResnetBlock.forward blk x seg = Ok y ->
  all_nan x -> all_nan y.
Proof.
  intros (log & log' & Hb) Hfin Hfout H Hx.
  destruct Hb as (_ & _ & _ & _ & Hc0 & Hc1 & _).
  unfold SPADEResnetBlock.forward, SPADEResnetBlock.actvn in H.
  destruct (SPADEResnetBlock.shortcut blk x seg) as [xs|]; [|discriminate].
  cbn [rbind] in H.
  destruct (SPADE_forward _ x seg) as [n0|] eqn:Hn0; [|discriminate].
  cbn [rbind] in H. pose proof (N _ _ _ _ Hn0 Hx) as Nn0.
  destruct (Conv2d_forward _ (F_leaky_relu n0 _)) as [d0|] eqn:Hd0;
    [|discriminate].
  cbn [rbind] in H.
  assert (Nd0 : all_nan d0).
  { apply (Conv2d_forward_nan _ _ _ _ _ _ _ _ _ Hc0) in Hd0;
      [exact Hd0 | lia | lia | lia | apply F_leaky_relu_nan; exact Nn0]. }
  destruct (SPADE_forward _ d0 seg) as [n1|] eqn:Hn1; [|discriminate].
  cbn [rbind] in H. pose proof (N _ _ _ _ Hn1 Nd0) as Nn1.
  destruct (Conv2d_forward _ (F_leaky_relu n1 _)) as [d1|] eqn:Hd1;
    [|discriminate].
  cbn [rbind] in H.
  assert (Nd1 : all_nan d1).
  { apply (Conv2d_forward_nan _ _ _ _ _ _ _ _ _ Hc1) in Hd1;
      [exact Hd1 | lia | lia | lia | apply F_leaky_relu_nan; exact Nn1]. }
  apply (tensor_add_nan _ _ _ H Nd1).
Qed.

(** One call of [forward], named by the hypothesis [H], applied to an
    all-NaN tensor. *)
Ltac nan_step N H :=
  match type of H with
  | rbind (if ?c then _ else _) _ = Ok _ =>
      destruct c; cbn [rbind] in H
  | rbind (rbind (Upsample_forward ?u ?x) _) _ = Ok _ =>
      let y := fresh "x" in
      let Hy := fresh "Hx" in
      let Ny := fresh "Nx" in
      destruct (Upsample_forward u x) as [y|] eqn:Hy;
      [cbn [rbind] in H | discriminate H];
      assert (Ny : all_nan y)
        by (apply (Upsample_forward_nan _ _ _ Hy); assumption);
      clear Hy
  | rbind (SPADEResnetBlock.forward ?blk ?x ?seg) _ = Ok _ =>
      let y := fresh "x" in
      let Hy := fresh "Hx" in
      let Ny := fresh "Nx" in
      destruct (SPADEResnetBlock.forward blk x seg) as [y|] eqn:Hy;
      [cbn [rbind] in H | discriminate H];
      match goal with
      | Hb : built_block _ _ _ blk |- _ =>
          assert (Ny : all_nan y)
            by (apply (block_forward_nan N _ _ _ _ _ _ _ Hb) in Hy;
                [exact Hy | lia | lia | assumption]);
          clear Hy
      end
  | rbind (Upsample_forward ?u ?x) _ = Ok _ =>
      let y := fresh "x" in
      let Hy := fresh "Hx" in
      let Ny := fresh "Nx" in
      destruct (Upsample_forward u x) as [y|] eqn:Hy;
      [cbn [rbind] in H | discriminate H];
      assert (Ny : all_nan y)
        by (apply (Upsample_forward_nan _ _ _ Hy); assumption);
      clear Hy
  end.

(** An all-NaN semantic map gives an all-NaN image. *)
Lemma generator_forward_nan (N : SPADE_keeps_nan E) opt g seg y :
  generator_built opt g ->
  0 < ngf opt -> (num_upsampling_layers opt = "most" -> 1 < ngf opt) ->
  0 < semantic_nc opt ->
  SPADEGenerator.forward g seg = Ok y ->
  all_nan seg -> all_nan y.
Proof.
  intros Hg Hngf Hmost Hnc H Hseg.
  destruct Hg as (Hopt & _ & Hfc & B0 & B1 & B2 & B3 & B4 & B5 & B6
                  & B7 & Hci & Hup).
  unfold SPADEGenerator.forward in H. rewrite Hopt in H.
  destruct (F_interpolate seg _ _) as [x0|] eqn:Hx0; [|discriminate].
  cbn [rbind] in H.
  assert (N0 : all_nan x0) by (apply (F_interpolate_nan _ _ _ _ Hx0 Hseg)).
  clear Hx0.
  destruct (Conv2d_forward (SPADEGenerator.fc g) x0) as [x1|] eqn:Hx1;
    [|discriminate].
  cbn [rbind] in H.
  assert (N1 : all_nan x1).
  { apply (Conv2d_forward_nan _ _ _ _ _ _ _ _ _ Hfc) in Hx1;
      [exact Hx1 | lia | lia | lia | exact N0]. }
  clear Hx1.
  assert (Hhalf : String.eqb (num_upsampling_layers opt) "most" = true ->
                  0 < ngf opt / 2).
  { intros Hm. apply String.eqb_eq in Hm.
    apply Z.div_str_pos. specialize (Hmost Hm). lia. }
  destruct (String.eqb (num_upsampling_layers opt) "most") eqn:Hm;
    [ specialize (Hhalf eq_refl);
      destruct (SPADEGenerator.up_4 g) as [b4|]; [|discriminate B7];
      destruct B7 as [_ B7]; cbn [attribute] in H
    | clear Hhalf ].
  all: repeat nan_step N H.
  all: cbn [rbind] in H.
  all: destruct (Conv2d_forward _ (F_leaky_relu _ _)) as [img|] eqn:Himg;
    [|discriminate].
  all: cbn [rbind] in H; injection H as <-.
  all: apply (Conv2d_forward_nan _ _ _ _ _ _ _ _ _ Hci) in Himg;
    [| lia | lia | lia | apply F_leaky_relu_nan; assumption].
  all: intros b c i j Hc Hi Hj; cbn [torch_tanh data channels height width] in *;
    rewrite Himg by assumption; reflexivity.
Qed.

End Properties.

(** * Instances

    The theorems above, applied in the reference environment to the
    configuration of the spec's end-to-end example and to variations of it. *)

Lemma reference_guarantee : SPADE_guarantee reference_environment.
Proof.
  intros n x seg Hx Hseg _ _ _ _ _ _ _ _. exists x.
  split; [|reflexivity].
  simpl. unfold reference_SPADE_forward.
  rewrite Hx, Hseg, !Z.eqb_refl. reflexivity.
Qed.

Definition non_spectral_opt : Opt := with_norm_G "spadeinstance3x3" example_opt.

(** Evaluates a closed equation. *)
Ltac run := vm_compute; reflexivity.

Lemma reference_guarantee_at (b : Z) :
  SPADE_guarantee_at reference_environment b.
Proof.
  intros n x seg _ _ Hx Hseg _ _ _ _ _ _. exists x.
  split; [|reflexivity].
  simpl. unfold reference_SPADE_forward.
  rewrite Hx, Hseg, !Z.eqb_refl. reflexivity.
Qed.

Lemma reference_keeps_nan : SPADE_keeps_nan reference_environment.
Proof.
  intros n x seg y H Hx. simpl in H. unfold reference_SPADE_forward in H.
  destruct ((channels x =? norm_nc n) && (channels seg =? label_nc n));
    [|discriminate].
  injection H as <-. exact Hx.
Qed.

Lemma forward_shape_and_range_witness :
  exists g log',
    SPADEGenerator.init (E := reference_environment) example_opt []
    = (Ok g, log')
    /\ SPADEGenerator.sh g = 8 /\ SPADEGenerator.sw g = 8
    /\ (exists feat img y,
          SPADEGenerator.forward (E := reference_environment) g
            (zeros 1 35 256 256) = Ok y
          /\ Conv2d_forward (SPADEGenerator.conv_img g)
               (F_leaky_relu feat 0.2) = Ok img
          /\ y = torch_tanh img
          /\ shape y = [1; 3; SPADEGenerator.sh g * 2 ^ 5;
                        SPADEGenerator.sw g * 2 ^ 5]
          /\ forall p c i j,
               (data y p c i j = NaN <-> data img p c i j = NaN)
               /\ (data y p c i j <> NaN -> within (-1) 1 (data y p c i j)))
    /\ (exists feat img y,
          SPADEGenerator.forward (E := reference_environment) g
            (zeros 0 35 256 256) = Ok y
          /\ Conv2d_forward (SPADEGenerator.conv_img g)
               (F_leaky_relu feat 0.2) = Ok img
          /\ y = torch_tanh img
          /\ shape y = [0; 3; SPADEGenerator.sh g * 2 ^ 5;
                        SPADEGenerator.sw g * 2 ^ 5]
          /\ forall p c i j,
               (data y p c i j = NaN <-> data img p c i j = NaN)
               /\ (data y p c i j <> NaN -> within (-1) 1 (data y p c i j))).
Proof.
  eexists. eexists. split; [run|].
  split; [reflexivity|]. split; [reflexivity|]. split.
  - eapply (forward_shape_and_range (E := reference_environment)
              reference_guarantee example_opt [] _ _ 5 (zeros 1 35 256 256)
              1 256 256);
      first [run | discriminate].
  - eapply (forward_shape_and_range (E := reference_environment)
              reference_guarantee example_opt [] _ _ 5 (zeros 0 35 256 256)
              0 256 256);
      first [run | discriminate | intros _; apply reference_guarantee_at].
Defined.

Lemma forward_fails_on_degenerate_configurations :
  (let opt := with_crop_size 32 (with_aspect_ratio float_four example_opt) in
   exists g log',
     SPADEGenerator.init (E := reference_environment) opt [] = (Ok g, log')
     /\ crop_size opt mod 2 ^ 5 = 0
     /\ SPADEGenerator.sw g = 1 /\ SPADEGenerator.sh g = 0
     /\ SPADEGenerator.forward (E := reference_environment) g
          (zeros 1 35 32 32)
        = Err (RuntimeError "Input and output sizes should be greater than 0"))
  /\ (let opt := with_ngf 1 (with_mode "most" non_spectral_opt) in
      exists g log',
        SPADEGenerator.init (E := reference_environment) opt [] = (Ok g, log')
        /\ SPADEGenerator.sw g = 2 /\ SPADEGenerator.sh g = 2
        /\ SPADEGenerator.forward (E := reference_environment) g
             (zeros 1 35 256 256)
           = Err (RuntimeError "expected weight to be at least 1 at dimension 0"))
  /\ (exists g log' y,
        SPADEGenerator.init (E := reference_environment) example_opt []
        = (Ok g, log')
        /\ SPADEGenerator.forward (E := reference_environment) g
             (nans 1 35 256 256) = Ok y
        /\ shape y = [1; 3; 256; 256]
        /\ data y 0 0 0 0 = NaN
        /\ (values_within (-1) 1 y -> False)).
Proof.
  split; [|split].
  - eexists. eexists. split; [run|]. repeat split; run.
  - eexists. eexists. split; [run|]. repeat split; run.
  - assert (Hinit : exists g log',
              SPADEGenerator.init (E := reference_environment) example_opt []
              = (Ok g, log')) by (eexists; eexists; run).
    destruct Hinit as (g & log' & Hinit).
    pose proof (generator_init_built _ _ _ _ Hinit) as Hg.
    assert (Hsize : SPADEGenerator.sw g = 8 /\ SPADEGenerator.sh g = 8).
    { destruct Hg as (_ & Hs & _).
      assert (Hc : SPADEGenerator.compute_latent_vector_size example_opt
                   = Ok (8, 8)) by run.
      rewrite Hc in Hs. injection Hs as Hw Hh.
      split; symmetry; assumption. }
    destruct Hsize as [Hsw Hsh].
    destruct (generator_forward_dims (E := reference_environment) 1
                (reference_guarantee_at 1) example_opt g 5
                (nans 1 35 256 256) 256 256 Hg)
      as (feat & img & _ & Hy & Hd);
      [ reflexivity | rewrite Hsw; reflexivity | rewrite Hsh; reflexivity
      | reflexivity | discriminate
      | unfold dims; repeat split; first [reflexivity | discriminate] |].
    rewrite Hsw, Hsh in Hd.
    assert (Hnan : all_nan (torch_tanh img)).
    { apply (generator_forward_nan (E := reference_environment)
               reference_keeps_nan example_opt g (nans 1 35 256 256) _ Hg);
        [ reflexivity | discriminate | reflexivity | exact Hy |].
      intros b c i j _ _ _. reflexivity. }
    apply dims_fields in Hd as (Eb & Ec & Eh & Ew).
    change (batch img) with (batch (torch_tanh img)) in Eb.
    change (channels img) with (channels (torch_tanh img)) in Ec.
    change (height img) with (height (torch_tanh img)) in Eh.
    change (width img) with (width (torch_tanh img)) in Ew.
    assert (H0 : data (torch_tanh img) 0 0 0 0 = NaN).
    { apply Hnan; rewrite ?Ec, ?Eh, ?Ew; split; reflexivity || discriminate. }
    exists g, log', (torch_tanh img).
    split; [exact Hinit|]. split; [exact Hy|]. split.
    { unfold shape. rewrite Eb, Ec, Eh, Ew. reflexivity. }
    split; [exact H0|].
    intros Hw. specialize (Hw 0 0 0 0).
    rewrite H0, Eb, Ec, Eh, Ew in Hw. apply Hw; split; reflexivity || discriminate.
Qed.

Lemma num_upsampling_layers_stages_witness :
  SPADEGenerator.num_up_layers example_opt = Ok 5
  /\ SPADEGenerator.num_up_layers (with_mode "more" example_opt) = Ok 6
  /\ SPADEGenerator.num_up_layers (with_mode "most" example_opt) = Ok 7
  /\ SPADEGenerator.init (E := reference_environment)
       (with_mode "huge" example_opt) []
     = (Err (ValueError "opt.num_upsampling_layers [huge] not recognized"),
        []).
Proof.
  split; [|split; [|split]].
  - apply (num_upsampling_layers_stages (E := reference_environment)
             example_opt). reflexivity.
  - apply (num_upsampling_layers_stages (E := reference_environment)
             (with_mode "more" example_opt)). reflexivity.
  - apply (num_upsampling_layers_stages (E := reference_environment)
             (with_mode "most" example_opt)). reflexivity.
  - apply (num_upsampling_layers_stages (E := reference_environment)
             (with_mode "huge" example_opt)); discriminate.
Defined.

Lemma latent_vector_size_floor_witness :
  SPADEGenerator.compute_latent_vector_size example_opt = Ok (8, 8)
  /\ SPADEGenerator.compute_latent_vector_size
       (with_crop_size 287 example_opt) = Ok (8, 8).
Proof.
  pose proof (latent_vector_size_floor example_opt 5 eq_refl)
    as (_ & _ & Hrem & Hex).
  split.
  - apply Hex; reflexivity.
  - rewrite <- (Hex eq_refl eq_refl eq_refl).
    apply (Hrem 31). split; [discriminate | reflexivity].
Defined.

Lemma block_shortcut_structure_witness :
  (exists b log',
     SPADEResnetBlock.init (E := reference_environment) 8 8 example_opt []
     = (Ok b, log')
     /\ SPADEResnetBlock.conv_s b = None
     /\ forall x seg,
          SPADEResnetBlock.shortcut (E := reference_environment) b x seg
          = Ok x)
  /\ (exists b log',
        SPADEResnetBlock.init (E := reference_environment) 8 4 example_opt []
        = (Ok b, log')
        /\ SPADEResnetBlock.learned_shortcut b = true
        /\ out_channels (SPADEResnetBlock.conv_0 b) = 4).
Proof.
  split.
  - eexists. eexists. split; [run|].
    edestruct (block_shortcut_structure (E := reference_environment)
                 8 8 example_opt [])
      as (_ & _ & _ & _ & _ & Hid & _); [run|].
    destruct (Hid eq_refl) as (Hcs & _ & Hsc). split; assumption.
  - eexists. eexists. split; [run|].
    edestruct (block_shortcut_structure (E := reference_environment)
                 8 4 example_opt [])
      as (Hls & Hmid & _); [run|].
    split; assumption.
Defined.

Lemma block_spectral_marker_witness :
  exists b log',
    SPADEResnetBlock.init (E := reference_environment) 8 4 example_opt []
    = (Ok b, log')
    /\ (forall c, In c (SPADEResnetBlock.convs b) -> is_spectral c = true)
    /\ (forall n, In n (SPADEResnetBlock.norms b) ->
                  spade_config n = "spadeinstance3x3")
    /\ hook_targets log' = [0; 1; 2]%nat.
Proof.
  eexists. eexists. split; [run|].
  edestruct (block_spectral_marker (E := reference_environment)
               8 4 example_opt [])
    as (Hc & _ & Hn & _ & _); [run|].
  split; [|split].
  - intros c Hin. apply (Hc c Hin). reflexivity.
  - exact Hn.
  - reflexivity.
Defined.

Lemma block_remove_spectral_norm_guarded_witness :
  (exists b log',
     SPADEResnetBlock.init (E := reference_environment) 8 4
       non_spectral_opt [] = (Ok b, log')
     /\ SPADEResnetBlock.remove_spectral_norm b
        = (Err (ValueError "spectral_norm of 'weight' not found in module"),
           b))
  /\ (exists b log' b',
        SPADEResnetBlock.init (E := reference_environment) 8 4
          example_opt [] = (Ok b, log')
        /\ SPADEResnetBlock.remove_spectral_norm b = (Ok tt, b')
        /\ SPADEResnetBlock.remove_spectral_norm b'
           = (Err (ValueError "spectral_norm of 'weight' not found in module"),
              b')).
Proof.
  split.
  - eexists. eexists. split; [run|].
    eapply (block_remove_spectral_norm_guarded (E := reference_environment)
              8 4 non_spectral_opt []); run.
  - eexists. eexists.
    edestruct (block_remove_spectral_norm_guarded
                 (E := reference_environment) 8 4 example_opt [])
      as (_ & Hsp); [run|].
    destruct (Hsp eq_refl) as (b' & Hr & _ & Hr').
    exists b'. split; [run|]. split; assumption.
Defined.

Lemma generator_pipeline_by_mode_witness :
  exists g log',
    SPADEGenerator.init (E := reference_environment)
      (with_mode "most" example_opt) [] = (Ok g, log')
    /\ (forall seg,
          SPADEGenerator.forward (E := reference_environment) g seg
          = spec_generator_forward (E := reference_environment) g seg)
    /\ count_up (spec_stages g "most") = 7
    /\ exists b4, SPADEGenerator.up_4 g = Some b4
                  /\ SPADEResnetBlock.fin b4 = 64
                  /\ SPADEResnetBlock.fout b4 = 32.
Proof.
  eexists. eexists. split; [run|].
  edestruct (generator_pipeline_by_mode (E := reference_environment)
               (with_mode "most" example_opt) [])
    as (Hf & _ & Hm & _); [run|].
  split; [exact Hf|]. split; [reflexivity|].
  destruct (Hm eq_refl) as (b4 & H4 & Hfin & Hfout & _).
  exists b4. repeat split; assumption.
Defined.

Lemma generator_remove_spectral_norm_preserves_forward_witness :
  exists g log' g',
    SPADEGenerator.init (E := reference_environment) example_opt []
    = (Ok g, log')
    /\ SPADEGenerator.remove_spectral_norm g = (Ok tt, g')
    /\ forall seg,
         SPADEGenerator.forward (E := reference_environment) g' seg
         = SPADEGenerator.forward (E := reference_environment) g seg.
Proof.
  eexists. eexists.
  edestruct (generator_remove_spectral_norm_preserves_forward
               (E := reference_environment) example_opt [])
    as (g' & Hr & Hf & _); [run | run |].
  exists g'. split; [run|]. split; assumption.
Defined.

Lemma odd_ngf_final_width_witness :
  exists g log',
    SPADEGenerator.init (E := reference_environment)
      (with_ngf 3 (with_mode "most" example_opt)) [] = (Ok g, log')
    /\ in_channels (SPADEGenerator.conv_img g) = 1.
Proof.
  destruct (odd_ngf_final_width (E := reference_environment)
              (with_ngf 3 (with_mode "most" example_opt))
              eq_refl eq_refl) as (Hwidth & Hbuilt & _).
  edestruct (Hbuilt [] (2, 2)) as (g & log' & Hinit);
    [run | discriminate | run | left; discriminate |].
  exists g, log'. split; [exact Hinit|].
  destruct (Hwidth [] g log' Hinit) as (b4 & _ & _ & Hin & _).
  exact Hin.
Defined.

Lemma odd_ngf_one_spectral_raises :
  let opt := with_ngf 1 (with_mode "most" example_opt) in
  Z.odd (ngf opt) = true
  /\ num_upsampling_layers opt = "most"
  /\ SPADEGenerator.compute_latent_vector_size opt = Ok (2, 2)
  /\ contains "spectral" (norm_G opt) = true
  /\ exists log',
       SPADEGenerator.init (E := reference_environment) opt []
       = (Err (RuntimeError
                 "cannot reshape tensor of 0 elements into shape [0, -1]"),
          log').
Proof.
  repeat split; try run. eexists. run.
Qed.

Definition float_zero : spec_float := S754_zero false.

Lemma generator_channels_chain_witness :
  exists g log',
    SPADEGenerator.init (E := reference_environment)
      (with_mode "most" example_opt) [] = (Ok g, log')
    /\ out_channels (SPADEGenerator.fc g) = 1024
    /\ in_channels (SPADEGenerator.conv_img g) = 32
    /\ is_spectral (SPADEGenerator.fc g) = false.
Proof.
  eexists. eexists. split; [run|].
  edestruct (generator_channels_chain (E := reference_environment)
               (with_mode "most" example_opt) [])
    as (_ & _ & _ & _ & _ & _ & _ & _ & _ & _ & Hfc & _); [run|].
  split; [reflexivity|]. split; [reflexivity|]. exact Hfc.
Defined.

Lemma block_forward_keeps_size_witness :
  exists blk log' y,
    SPADEResnetBlock.init (E := reference_environment) 8 4 example_opt []
    = (Ok blk, log')
    /\ SPADEResnetBlock.forward (E := reference_environment) blk
         (zeros 2 8 16 16) (zeros 2 35 256 256) = Ok y
    /\ shape y = [2; 4; 16; 16].
Proof.
  eexists. eexists.
  edestruct (block_forward_keeps_size (E := reference_environment)
               reference_guarantee 8 4 example_opt [])
    with (x := zeros 2 8 16 16) (seg := zeros 2 35 256 256)
         (b := 2) (h := 16) (w := 16) (h0 := 256) (w0 := 256)
    as (y & Hy & Hs); [run | reflexivity .. |].
  exists y. split; [run|]. split; assumption.
Defined.

Lemma forward_rejects_wrong_channels_witness :
  exists g log',
    SPADEGenerator.init (E := reference_environment) example_opt []
    = (Ok g, log')
    /\ SPADEGenerator.forward (E := reference_environment) g
         (zeros 1 3 256 256)
       = Err (RuntimeError
                "expected input to have as many channels as the weight").
Proof.
  eexists. eexists. split; [run|].
  edestruct (forward_rejects_wrong_channels (E := reference_environment)
               example_opt []) with (seg := zeros 1 3 256 256)
    as (base & _ & _ & Hf); [run | reflexivity .. | discriminate |].
  exact Hf.
Defined.

Lemma output_width_truncates_crop_size_witness :
  exists g log' y,
    SPADEGenerator.init (E := reference_environment)
      (with_crop_size 287 example_opt) [] = (Ok g, log')
    /\ SPADEGenerator.forward (E := reference_environment) g
         (zeros 1 35 287 287) = Ok y
    /\ width y = 256.
Proof.
  eexists. eexists.
  edestruct (output_width_truncates_crop_size (E := reference_environment)
               reference_guarantee (with_crop_size 287 example_opt) [])
    with (n := 5) (seg := zeros 1 35 287 287) (b := 1) (h := 287) (w := 287)
    as (y & Hy & Hw & _);
    [run | reflexivity | discriminate | reflexivity | reflexivity
    | discriminate | reflexivity .. |].
  exists y. split; [run|]. split; assumption.
Defined.

Lemma generator_remove_spectral_norm_once_witness :
  (exists g log',
     SPADEGenerator.init (E := reference_environment) non_spectral_opt []
     = (Ok g, log')
     /\ SPADEGenerator.remove_spectral_norm g
        = (Err (ValueError "spectral_norm of 'weight' not found in module"),
           g))
  /\ (exists g log' g',
        SPADEGenerator.init (E := reference_environment) example_opt []
        = (Ok g, log')
        /\ SPADEGenerator.remove_spectral_norm g = (Ok tt, g')
        /\ SPADEGenerator.remove_spectral_norm g'
           = (Err (ValueError "spectral_norm of 'weight' not found in module"),
              g')).
Proof.
  split.
  - eexists. eexists. split; [run|].
    eapply (generator_remove_spectral_norm_once (E := reference_environment)
              non_spectral_opt []); run.
  - eexists. eexists.
    edestruct (generator_remove_spectral_norm_once
                 (E := reference_environment) example_opt [])
      as (_ & Hsp); [run|].
    destruct (Hsp ltac:(run)) as (g' & Hr & Hr').
    exists g'. split; [run|]. split; assumption.
Defined.

Lemma generator_remove_spectral_norm_frame_witness :
  exists g log' g',
    SPADEGenerator.init (E := reference_environment) example_opt []
    = (Ok g, log')
    /\ SPADEGenerator.remove_spectral_norm g = (Ok tt, g')
    /\ SPADEGenerator.fc g' = SPADEGenerator.fc g
    /\ SPADEGenerator.conv_img g' = SPADEGenerator.conv_img g.
Proof.
  destruct (generator_init_succeeds (E := reference_environment)
              example_opt [] (8, 8)) as (g & log' & Hinit);
    [ run | discriminate | discriminate | run
    | intros _; split; [reflexivity | discriminate] | ].
  pose proof (generator_init_built _ _ _ _ Hinit) as Hg.
  destruct (generator_remove_returns (E := reference_environment)
              example_opt g Hg ltac:(run)) as (g' & Hr & _).
  exists g, log', g'. split; [exact Hinit|]. split; [exact Hr|].
  destruct (generator_remove_spectral_norm_frame
              (E := reference_environment) example_opt [] log' g g'
              Hinit Hr) as (_ & _ & _ & Hfc & Hci & _).
  split; assumption.
Defined.

Lemma degenerate_aspect_ratio_raises_witness :
  SPADEGenerator.init (E := reference_environment)
    (with_aspect_ratio float_zero example_opt) []
  = (Err (ZeroDivisionError "float division by zero"), [])
  /\ SPADEGenerator.init (E := reference_environment)
       (with_aspect_ratio S754_nan example_opt) []
     = (Err (ValueError "cannot convert float NaN to integer"), []).
Proof.
  split.
  - edestruct (degenerate_aspect_ratio_raises (E := reference_environment)
                 (with_aspect_ratio float_zero example_opt) 5)
      as (Hz & _); [reflexivity | run |].
    apply (Hz false). reflexivity.
  - edestruct (degenerate_aspect_ratio_raises (E := reference_environment)
                 (with_aspect_ratio S754_nan example_opt) 5)
      as (_ & Hn); [reflexivity | run |].
    apply Hn. reflexivity.
Defined.

Lemma crop_size_below_stride_fails_witness :
  exists g log',
    SPADEGenerator.init (E := reference_environment)
      (with_crop_size 16 example_opt) [] = (Ok g, log')
    /\ SPADEGenerator.sw g = 0
    /\ forall seg,
         SPADEGenerator.forward (E := reference_environment) g seg
         = Err (RuntimeError "Input and output sizes should be greater than 0").
Proof.
  eexists. eexists. split; [run|].
  eapply (crop_size_below_stride_fails (E := reference_environment)
            (with_crop_size 16 example_opt) []) with (n := 5);
    [run | reflexivity | split; [discriminate | reflexivity]].
Defined.

Lemma unit_aspect_ratio_square_base_witness :
  SPADEGenerator.compute_latent_vector_size (with_crop_size 512 example_opt)
  = Ok (16, 16).
Proof.
  edestruct (unit_aspect_ratio_square_base (E := reference_environment)
               (with_crop_size 512 example_opt) 5) as (Hsize & _);
    [reflexivity | reflexivity | split; [discriminate | reflexivity] |].
  exact Hsize.
Defined.

Lemma double_aspect_ratio_rounds_to_even_witness :
  SPADEGenerator.compute_latent_vector_size
    (with_crop_size 96 (with_aspect_ratio float_two example_opt))
  = Ok (3, 2)
  /\ SPADEGenerator.compute_latent_vector_size
       (with_crop_size 32 (with_aspect_ratio float_two example_opt))
     = Ok (1, 0).
Proof.
  split.
  - edestruct (double_aspect_ratio_rounds_to_even
                 (with_crop_size 96
                    (with_aspect_ratio float_two example_opt)) 5)
      as (Hsize & _);
      [reflexivity | reflexivity | split; [discriminate | reflexivity] |].
    exact Hsize.
  - edestruct (double_aspect_ratio_rounds_to_even
                 (with_crop_size 32
                    (with_aspect_ratio float_two example_opt)) 5)
      as (_ & Hone);
      [reflexivity | reflexivity | split; [discriminate | reflexivity] |].
    apply Hone. split; [discriminate | reflexivity].
Defined.
